(** * email-security-copilot: ingestion, parsing, normalisation and features

    A shallow embedding of the Python sources

      - [data/textPreprocessor.py]            (TextPreprocessor)
      - [data/data.py]                        (EmailDataset, load_data)
      - [data/build_spamassassin_dataset.py]  (iter_email_files, extract_text_from_email)
      - [features/features.py]                (EmailFeatureClass)
      - [data/build_processed.py]             (main)
      - [config.py]                           (TrainConfig.get_output_dir)

    Python [str] values are sequences of Unicode code points; they are
    modelled as lists of [N].  Library functions whose behaviour is fixed by
    the Unicode database, by the [email] package or by spaCy are operations
    of a class, so every statement holds for any implementation of them. *)

From Stdlib Require Import Ascii DecimalString.
From stdpp Require Import gmap strings list.

(** ** Python strings *)

Module Py.

Local Open Scope N_scope.

Definition char := N.
Definition str := list char.

(** An ASCII literal of the source as a Python string. *)
Definition lit (s : string) : str := N_of_ascii <$> String.list_ascii_of_string s.

Definition SP : char := 32.
Definition NL : char := 10.

(** [str.isspace] for one character, which is also the class [\s] of [re]
    on [str] patterns: the code points with bidirectional type WS, B or S
    or general category Zs. *)
Definition isspace (c : char) : bool :=
  ((9 <=? c) && (c <=? 13)) || ((28 <=? c) && (c <=? 32))
  || (c =? 133) || (c =? 160) || (c =? 5760)
  || ((8192 <=? c) && (c <=? 8202))
  || (c =? 8232) || (c =? 8233) || (c =? 8239) || (c =? 8287) || (c =? 12288).

(** [s.lstrip()], [s.rstrip()], [s.strip()] *)
Fixpoint lstrip (s : str) : str :=
  match s with
  | [] => []
  | c :: s' => if isspace c then lstrip s' else s
  end.

Fixpoint rstrip (s : str) : str :=
  match s with
  | [] => []
  | c :: s' =>
      match rstrip s' with
      | [] => if isspace c then [] else [c]
      | r => c :: r
      end
  end.

Definition strip (s : str) : str := rstrip (lstrip s).

(** [s.strip(q)] for a one-character argument [q] *)
Fixpoint lstrip_char (q : char) (s : str) : str :=
  match s with
  | [] => []
  | c :: s' => if c =? q then lstrip_char q s' else s
  end.

Fixpoint rstrip_char (q : char) (s : str) : str :=
  match s with
  | [] => []
  | c :: s' =>
      match rstrip_char q s' with
      | [] => if c =? q then [] else [c]
      | r => c :: r
      end
  end.

Definition strip_char (q : char) (s : str) : str := rstrip_char q (lstrip_char q s).

(** Trimming with respect to any class of characters, and [b.strip()] on
    bytes, which removes the ASCII whitespace: space, tab, line feed,
    carriage return, vertical tab and form feed. *)
Section By.
Variable p : char -> bool.

Fixpoint lstrip_by (s : str) : str :=
  match s with
  | [] => []
  | c :: s' => if p c then lstrip_by s' else s
  end.

Fixpoint rstrip_by (s : str) : str :=
  match s with
  | [] => []
  | c :: s' =>
      match rstrip_by s' with
      | [] => if p c then [] else [c]
      | r => c :: r
      end
  end.

Definition strip_by (s : str) : str := rstrip_by (lstrip_by s).

End By.

Definition is_ascii_space (c : char) : bool := ((9 <=? c) && (c <=? 13)) || (c =? 32).

Definition bstrip (b : list N) : list N := strip_by is_ascii_space b.

(** [sep.join(xs)] *)
Fixpoint join (sep : str) (xs : list str) : str :=
  match xs with
  | [] => []
  | x :: xs' =>
      match xs' with
      | [] => x
      | _ :: _ => x ++ sep ++ join sep xs'
      end
  end.

(** [s.startswith(p)] *)
Fixpoint startswith (p s : str) : bool :=
  match p, s with
  | [], _ => true
  | _ :: _, [] => false
  | a :: p', b :: s' => (a =? b) && startswith p' s'
  end.

(** [p in s] *)
Fixpoint contains (p s : str) : bool :=
  startswith p s || match s with [] => false | _ :: s' => contains p s' end.

(** [s.split(sep)] for a non-empty separator: the occurrences of [sep] are
    found from the left and do not overlap.  [k] is the number of characters
    of the separator just found that are still to be consumed, [cur] the
    piece being read, last character first. *)
Fixpoint split_go (sep : str) (k : nat) (cur : str) (s : str) : list str :=
  match s with
  | [] => [rev cur]
  | c :: s' =>
      match k with
      | S k' => split_go sep k' cur s'
      | O =>
          if startswith sep s
          then rev cur :: split_go sep (Nat.pred (length sep)) [] s'
          else split_go sep 0 (c :: cur) s'
      end
  end.

Definition split (sep : str) (s : str) : list str := split_go sep 0 [] s.

(** [s.split()]: the maximal runs of characters that are not whitespace. *)
Fixpoint words (s : str) : list str :=
  match s with
  | [] => []
  | c :: s' =>
      if isspace c then words s'
      else match s' with
           | [] => [[c]]
           | d :: _ =>
               if isspace d then [c] :: words s'
               else match words s' with
                    | w :: ws => (c :: w) :: ws
                    | [] => [[c]]
                    end
           end
  end.

(** [re.sub(r"\s+", " ", s)]: the pattern matches greedily from the left,
    so every maximal run of whitespace becomes one space.  [in_run] tells
    that the previous character was whitespace. *)
Fixpoint sub_ws_runs (in_run : bool) (s : str) : str :=
  match s with
  | [] => []
  | c :: s' =>
      if isspace c
      then (if in_run then sub_ws_runs true s' else SP :: sub_ws_runs true s')
      else c :: sub_ws_runs false s'
  end.

End Py.

Import Py.

(** ** Library operations

    Functions of the Python standard library, of the Unicode database and of
    spaCy that the sources call and that are not part of the repository. *)

Class Regex := {
  (** [re.sub(pattern, repl, s)] *)
  re_sub : string -> str -> str -> str;
  (** [re.search(pattern, s) is not None] *)
  re_search : string -> str -> bool;
}.

Class Unicode := {
  (** [s.lower()] *)
  lower : str -> str;
  (** [unicodedata.category(chr(i)).startswith("P")] *)
  ispunct : char -> bool;
  (** [html.unescape(s)] *)
  html_unescape : str -> str;
}.

Class Codec := {
  (** [b.decode(cs, "replace")]; [None] when it raises (unknown codec). *)
  bytes_decode : str -> list N -> option str;
  (** [b.decode(errors="replace")], UTF-8, which never raises. *)
  utf8_decode : list N -> str;
}.

Class Spacy := {
  (** [spacy.load(model)]; [None] when it raises [OSError].  A loaded model
      maps a text to the lemmas of its tokens. *)
  spacy_load : string -> option (str -> list str);
}.

(** ** data/textPreprocessor.py *)

Module TextPreprocessor.

(** config.PreprocessingCfg *)
Record PreprocessingCfg := {
  enable : bool;
  language : string;
  remove_html : bool;
  remove_urls : bool;
  remove_emails : bool;
  remove_user_handles : bool;
  remove_hashtags : bool;
  lowercase : bool;
  remove_digits : bool;
  remove_punctuation : bool;
  collapse_whitespace : bool;
  lemmatize : bool;
}.

Definition default_cfg : PreprocessingCfg := {|
  enable := true; language := "en";
  remove_html := true; remove_urls := false; remove_emails := false;
  remove_user_handles := false; remove_hashtags := false;
  lowercase := false; remove_digits := false; remove_punctuation := false;
  collapse_whitespace := true; lemmatize := false |}.

Definition URL_RE : string := "https?://\S+|www\.\S+".
Definition EMAIL_RE : string := "\b[\w\.-]+@[\w\.-]+\.\w+\b".
Definition HANDLE_RE : string := "@\w+".
Definition HASHTAG_RE : string := "#\w+".
Definition HTML_TAG_RE : string := "<[^>]+>".
Definition DIGIT_RE : string := "\d+".

(** The step [re.sub(r"\s+", " ", text).strip()] of [__call__]. *)
Definition collapse (text : str) : str := strip (sub_ws_runs false text).

(** The same step in the words of the specification: the maximal runs of
    characters that are not whitespace, separated by single spaces. *)
Definition collapse_spec (text : str) : str := join [SP] (words text).

Section Call.
Context {re : Regex} {uni : Unicode} {nlp : Spacy}.

(** [text.translate(PUNCT_TABLE)]: the table maps every punctuation
    character to [None], which deletes it. *)
Definition translate_punct (text : str) : str :=
  List.filter (fun c => negb (ispunct c)) text.

(** [_lemmatize]; the model name is ["en_core_web_sm"] for every language,
    and the package [spacy] is taken to be importable. *)
Definition _lemmatize (cfg : PreprocessingCfg) (text : str) : str :=
  let model := if bool_decide (language cfg = "en")
               then "en_core_web_sm" else "en_core_web_sm" in
  match spacy_load model with
  | None => text
  | Some nlp => join [SP] (nlp text)
  end.

Definition step (on : bool) (f : str -> str) (text : str) : str :=
  if on then f text else text.

(** [TextPreprocessor.__call__] *)
Definition call (cfg : PreprocessingCfg) (text : str) : str :=
  if negb (enable cfg) then text
  else
    let text := html_unescape text in
    let text := step (remove_html cfg) (re_sub HTML_TAG_RE [SP]) text in
    let text := step (remove_urls cfg) (re_sub URL_RE [SP]) text in
    let text := step (remove_emails cfg) (re_sub EMAIL_RE [SP]) text in
    let text := step (remove_user_handles cfg) (re_sub HANDLE_RE [SP]) text in
    let text := step (remove_hashtags cfg) (re_sub HASHTAG_RE [SP]) text in
    let text := step (lowercase cfg) lower text in
    let text := step (remove_digits cfg) (re_sub DIGIT_RE [SP]) text in
    let text := step (remove_punctuation cfg) translate_punct text in
    let text := step (collapse_whitespace cfg) collapse text in
    let text := step (lemmatize cfg) (_lemmatize cfg) text in
    text.

End Call.

End TextPreprocessor.

(** ** Parsed messages

    The view of [email.message.EmailMessage] that the sources use: the
    headers in order, the content type and disposition as
    [get_content_type()] and [get_content_disposition()] return them
    (lower case), the charset parameter as [get_content_charset()] returns
    it, and either the transfer-decoded payload bytes of a single part or
    the list of sub-parts of a multipart. *)

#[warnings="-register-all"]
Inductive Message : Type :=
  | Single (headers : list (string * str))
           (content_type : string)
           (content_disposition : option string)
           (content_charset : option str)
           (bytes : list N)
  | Multipart (headers : list (string * str))
              (content_type : string)
              (content_disposition : option string)
              (content_charset : option str)
              (parts : list Message).

Definition headers (m : Message) : list (string * str) :=
  match m with Single h _ _ _ _ | Multipart h _ _ _ _ => h end.
Definition get_content_type (m : Message) : string :=
  match m with Single _ ct _ _ _ | Multipart _ ct _ _ _ => ct end.
Definition get_content_disposition (m : Message) : option string :=
  match m with Single _ _ cd _ _ | Multipart _ _ cd _ _ => cd end.
Definition get_content_charset (m : Message) : option str :=
  match m with Single _ _ _ cs _ | Multipart _ _ _ cs _ => cs end.

(** [msg.is_multipart()]: the payload is a list. *)
Definition is_multipart (m : Message) : bool :=
  match m with Single _ _ _ _ _ => false | Multipart _ _ _ _ _ => true end.

(** [msg.walk()]: the message itself, then the walks of its sub-parts. *)
Fixpoint walk (m : Message) : list Message :=
  m :: match m with
       | Single _ _ _ _ _ => []
       | Multipart _ _ _ _ ps =>
           (fix walk_all (l : list Message) : list Message :=
              match l with
              | [] => []
              | x :: l' => walk x ++ walk_all l'
              end) ps
       end.

(** Header names compare without regard to case. *)
Definition ascii_lower (a : ascii) : ascii :=
  let n := N_of_ascii a in
  if ((65 <=? n) && (n <=? 90))%N then ascii_of_N (n + 32) else a.

Definition name_lower (s : string) : string :=
  String.string_of_list_ascii (ascii_lower <$> String.list_ascii_of_string s).

Definition is_header (name : string) (h : string * str) : bool :=
  bool_decide (name_lower h.1 = name_lower name).

(** What [get_content] returns for a part that is not a multipart: text
    for a part of main type text, bytes for the other types it handles. *)
Inductive content : Type :=
  | Text (s : str)
  | Bytes (b : list N).

Class EmailPkg := {
  (** [BytesParser(policy=policy.default).parsebytes(raw)]; [None] when it
      raises. *)
  parsebytes : list N -> option Message;
  (** [policy.header_fetch_parse(name, value)], which builds the header
      object that [msg.get] and [msg.get_all] return from the stored value
      of a header; [None] when it raises (as the parser of address headers
      does on some malformed values). *)
  header_fetch_parse : string -> str -> option str;
  (** [email.utils.getaddresses(values)]: pairs of display name and address;
      [None] when it raises. *)
  getaddresses : list str -> option (list (str * str));
  (** [get_text_content], which [part.get_content()] calls for a part of
      main type text: the payload decoded with the charset of the part;
      [None] when it raises. *)
  get_text_content : Message -> option str;
}.

Section Headers.
Context {pkg : EmailPkg}.

(** [msg.get_all(name, [])]: every occurrence of the header, each one
    parsed when it is read; [None] when a parse raises. *)
Definition get_all (name : string) (m : Message) : option (list str) :=
  mapM (fun h => header_fetch_parse h.1 h.2) (List.filter (is_header name) (headers m)).

(** [msg.get(name, default)]: the first occurrence of the header, parsed
    when it is read; [None] when the parse raises. *)
Definition get (name : string) (default : str) (m : Message) : option str :=
  match List.filter (is_header name) (headers m) with
  | [] => Some default
  | h :: _ => header_fetch_parse h.1 h.2
  end.

End Headers.

(** [part.get_content()] under the default policy.  The content manager
    chooses by the main type: [get_text_content] for text, the decoded
    payload bytes for audio, image, video and application, and it raises for
    the rest (no handler for other main types and for multiparts; the
    handlers of message types fail on a payload that is not a list). *)
Definition get_content {pkg : EmailPkg} (part : Message) : option content :=
  if String.prefix "text/" (get_content_type part) then Text <$> get_text_content part
  else
    match part with
    | Single _ ct _ _ b =>
        if existsb (fun m => String.prefix m ct) ["audio/"; "image/"; "video/"; "application/"]
        then Some (Bytes b) else None
    | Multipart _ _ _ _ _ => None
    end.

(** [c.strip()] and the truth value of [c], for text and for bytes. *)
Definition content_strip (c : content) : content :=
  match c with
  | Text s => Text (strip s)
  | Bytes b => Bytes (bstrip b)
  end.

Definition content_nonempty (c : content) : bool :=
  match c with
  | Text [] | Bytes [] => false
  | _ => true
  end.

(** A scanned directory: regular files with the bytes a read returns
    ([None] when opening or reading raises), sub-directories, and entries
    that are neither. *)
#[warnings="-register-all"]
Inductive DirEntry : Type :=
  | File (name : string) (data : option (list N))
  | Dir (name : string) (children : list DirEntry)
  | Other (name : string).

Definition entry_name (e : DirEntry) : string :=
  match e with File n _ | Dir n _ | Other n => n end.

Definition is_file (e : DirEntry) : bool :=
  match e with File _ _ => true | _ => false end.

(** ** data/data.py *)

Module EmailDataset.

(** One row of the table that [load] builds. *)
Record EmailRecord := {
  file : string;
  sender : str;
  recipient : str;
  cc : str;
  num_cc : nat;
  subject : str;
  content : str;
  num_hops : nat;
  label : option string;
}.

Definition is_content_type (ct : string) (p : Message) : bool :=
  bool_decide (get_content_type p = ct).

(** The lines of [load] that build [num_cc] and [cc] from the address list:
    [num_cc = sum(1 for a in cc_addrs if a)] and
    [cc_txt = ", ".join(a for a in cc_addrs if a)]. *)
Definition nonempty (a : str) : bool :=
  match a with [] => false | _ :: _ => true end.

Definition cc_fields (cc_addrs : list str) : nat * str :=
  (length (List.filter nonempty cc_addrs),
   join (lit ", ") (List.filter nonempty cc_addrs)).

Section Parser.
Context {re : Regex} {uni : Unicode} {cod : Codec} {pkg : EmailPkg}.

(** [_dec]: a multipart has no decoded payload, and encoding its list of
    parts raises. *)
Definition _dec (part : Message) : option (list N) :=
  match part with
  | Single _ _ _ _ b => Some b
  | Multipart _ _ _ _ [] => Some []
  | Multipart _ _ _ _ (_ :: _) => None
  end.

(** The codec name [_txt] decodes with. *)
Definition charset_name (part : Message) : str :=
  match lower (strip_char 34%N (strip (default [] (get_content_charset part)))) with
  | [] => lit "utf-8"
  | cs => cs
  end.

(** Latin-1 maps every byte to the code point of the same number. *)
Definition latin1_decode (b : list N) : str := b.

(** [_txt]; [None] when [_dec] raises. *)
Definition _txt (part : Message) : option str :=
  match _dec part with
  | None => None
  | Some b =>
      Some match bytes_decode (charset_name part) b with
           | Some s => s
           | None => latin1_decode b
           end
  end.

(** [_html2txt] *)
Definition _html2txt (s : str) : str :=
  let s := re_sub "(?is)<(script|style).*?>.*?</\1>" [] s in
  let s := re_sub "(?is)<br\s*/?>|</p>" [NL] s in
  let s := re_sub "(?is)<.*?>" [] s in
  strip (re_sub "\s+\n" [NL] s).

(** [_get_body]; [None] when it raises. *)
Definition _get_body (msg : Message) : option str :=
  if is_multipart msg then
    match List.find (is_content_type "text/plain") (walk msg) with
    | Some p => _txt p
    | None =>
        match List.find (is_content_type "text/html") (walk msg) with
        | Some p => _html2txt <$> _txt p
        | None => Some []
        end
    end
  else
    if is_content_type "text/plain" msg then _txt msg
    else if is_content_type "text/html" msg then _html2txt <$> _txt msg
    else Some [].

(** The part that [_get_body] takes the body from, and the branch that
    takes it: the same tests in the same order. *)
Inductive branch : Type :=
  | Plain (p : Message)
  | Html (p : Message)
  | NoBody.

Definition select_body (msg : Message) : branch :=
  if is_multipart msg then
    match List.find (is_content_type "text/plain") (walk msg) with
    | Some p => Plain p
    | None =>
        match List.find (is_content_type "text/html") (walk msg) with
        | Some p => Html p
        | None => NoBody
        end
    end
  else
    if is_content_type "text/plain" msg then Plain msg
    else if is_content_type "text/html" msg then Html msg
    else NoBody.


(** The body of the loop of [load] for one directory entry, on the rows and
    the skip counter so far.  Reading and parsing are inside one [try], the
    call of [_get_body] inside another, and each of them counts a skip when
    it raises.  The header accessors and [getaddresses] between them are
    outside both: when one of them raises, the exception leaves the loop
    and [load], which is the result [None]. *)
Definition load_entry (label : option string)
    (st : list EmailRecord * nat) (e : DirEntry) : option (list EmailRecord * nat) :=
  let '(rows, skipped) := st in
  match e with
  | File name data =>
      match data ≫= parsebytes with
      | None => Some (rows, S skipped)
      | Some msg =>
          subj ← get "Subject" [] msg;
          sender ← get "From" [] msg;
          to ← get "To" [] msg;
          recvd ← get_all "Received" msg;
          cc_hdrs ← get_all "Cc" msg;
          addrs ← getaddresses cc_hdrs;
          let cc_addrs := snd <$> addrs in
          let '(num_cc, cc_txt) := cc_fields cc_addrs in
          match _get_body msg with
          | None => Some (rows, S skipped)
          | Some content =>
              if negb (nonempty subj || nonempty content || nonempty sender)
              then Some (rows, S skipped)
              else
                Some (rows ++ [ {| file := name; sender := sender; recipient := to;
                                   cc := cc_txt; num_cc := num_cc; subject := subj;
                                   content := content; num_hops := length recvd;
                                   label := label |} ],
                      skipped)
          end
      end
  | _ => Some (rows, skipped)
  end.

(** The loop of [load] over the scanned entries. *)
Fixpoint load_loop (label : option string) (st : list EmailRecord * nat)
    (entries : list DirEntry) : option (list EmailRecord * nat) :=
  match entries with
  | [] => Some st
  | e :: rest => st' ← load_entry label st e; load_loop label st' rest
  end.

(** [EmailDataset(dir_path, label).load()] on the entries that
    [os.scandir(dir_path)] yields: the rows and the skip count, or [None]
    when an exception leaves [load]. *)
Definition load (entries : list DirEntry) (label : option string)
    : option (list EmailRecord * nat) :=
  load_loop label ([], 0%nat) entries.

(** [load_data]: the rows of the spam directory, then those of the ham
    directory; [None] when one of the two loads raises. *)
Definition load_data (spam_dir ham_dir : list DirEntry) : option (list EmailRecord) :=
  spam ← load spam_dir (Some "spam");
  ham ← load ham_dir (Some "ham");
  Some (spam.1 ++ ham.1).

End Parser.

End EmailDataset.

(** ** data/build_spamassassin_dataset.py *)

Module BuildSpamassassin.

(** The entries of a directory listing, with their paths under [prefix]. *)
Definition listed (prefix : list string) (cs : list DirEntry)
    : list (list string * DirEntry) :=
  (fun c => (prefix ++ [entry_name c], c)) <$> cs.

(** What [rglob] yields below one entry of a listing: nothing for an entry
    that is not a directory; for a directory, its entries in listing order,
    then what lies below each of them, in that order. *)
Fixpoint below (prefix : list string) (e : DirEntry)
    : list (list string * DirEntry) :=
  match e with
  | Dir n cs =>
      listed (prefix ++ [n]) cs ++
      (fix below_all (l : list DirEntry) : list (list string * DirEntry) :=
         match l with
         | [] => []
         | x :: l' => below (prefix ++ [n]) x ++ below_all l'
         end) cs
  | _ => []
  end.

(** [folder.rglob("*")] on the listing of the folder: every entry below the
    folder, at any depth, with its path relative to the folder.  The
    directories are visited in pre-order, and every directory yields all of
    its entries before anything deeper is yielded (the order of CPython
    3.11). *)
Definition rglob (prefix : list string) (folder : list DirEntry)
    : list (list string * DirEntry) :=
  listed prefix folder ++ flat_map (below prefix) folder.

(** [iter_email_files]: the regular files among the entries of
    [folder.rglob("*")]. *)
Definition iter_email_files (folder : list DirEntry)
    : list (list string * DirEntry) :=
  List.filter (fun pe => is_file pe.2) (rglob [] folder).

Section Extract.
Context {cod : Codec} {pkg : EmailPkg}.

Definition is_attachment (part : Message) : bool :=
  bool_decide (get_content_disposition part = Some "attachment").

(** The text appended for one [text/plain] part: its content (for a text
    part [get_content] is [get_text_content]), or when that raises its
    payload decoded as UTF-8, or nothing when that raises too. *)
Definition plain_text (part : Message) : option str :=
  match get_text_content part with
  | Some s => Some s
  | None =>
      match part with
      | Single _ _ _ _ b => Some (utf8_decode b)
      | Multipart _ _ _ _ _ => None
      end
  end.

(** The first loop over [msg.walk()]: the list [parts]. *)
Fixpoint collect_plain (ps : list Message) : list str :=
  match ps with
  | [] => []
  | part :: rest =>
      if is_attachment part then collect_plain rest
      else if EmailDataset.is_content_type "text/plain" part then
        match plain_text part with
        | Some s => s :: collect_plain rest
        | None => collect_plain rest
        end
      else collect_plain rest
  end.

(** The fallback loop: the first [text/*] part whose stripped content is not
    empty. *)
Fixpoint fallback_text (ps : list Message) : str :=
  match ps with
  | [] => []
  | part :: rest =>
      if String.prefix "text/" (get_content_type part) then
        match get_text_content part with
        | Some s =>
            match strip s with
            | [] => fallback_text rest
            | body => body
            end
        | None => fallback_text rest
        end
      else fallback_text rest
  end.

(** The text/plain candidate of a multipart message:
    [chr(10).join([p for p in parts if p]).strip()]. *)
Definition joined_plain (msg : Message) : str :=
  strip (join [NL] (List.filter EmailDataset.nonempty (collect_plain (walk msg)))).

(** The body that [extract_text_from_email] computes for a parsed message:
    text, or bytes when the message is a single part whose content is
    bytes. *)
Definition extract_body (msg : Message) : content :=
  if is_multipart msg then
    Text match joined_plain msg with
         | [] => fallback_text (walk msg)
         | body => body
         end
  else
    match get_content msg with
    | Some (Text s) => Text (strip s)
    | Some (Bytes []) => Text []
    | Some (Bytes b) => Bytes (bstrip b)
    | None =>
        match msg with
        | Single _ _ _ _ b => Text (strip (utf8_decode b))
        | Multipart _ _ _ _ _ => Text []
        end
    end.

(** [extract_text_from_email]; [None] when parsing or reading the subject
    raises. *)
Definition extract_text_from_email (raw_bytes : list N) : option (str * content) :=
  msg ← parsebytes raw_bytes;
  subject ← get "subject" [] msg;
  Some (subject, extract_body msg).

End Extract.

End BuildSpamassassin.

(** ** Tables

    A [pandas.DataFrame] as its columns in order.  A column holds text
    (object dtype: a string or a missing value in every row) or integers
    (int64 dtype). *)

Inductive column : Type :=
  | TextCol (xs : list (option str))
  | NumCol (xs : list Z).

Definition DataFrame := list (string * column).

(** [df.columns] *)
Definition columns (df : DataFrame) : list string := fst <$> df.

(** [c in df.columns] *)
Definition has_column (c : string) (df : DataFrame) : bool :=
  bool_decide (c ∈ columns df).

(** [df[c]] *)
Fixpoint getitem (c : string) (df : DataFrame) : option column :=
  match df with
  | [] => None
  | (n, v) :: df' => if bool_decide (n = c) then Some v else getitem c df'
  end.

(** [df[c] = v]: an existing column is replaced in place, a new one is
    appended. *)
Fixpoint setitem (c : string) (v : column) (df : DataFrame) : DataFrame :=
  match df with
  | [] => [(c, v)]
  | (n, w) :: df' =>
      if bool_decide (n = c) then (n, v) :: df' else (n, w) :: setitem c v df'
  end.

(** The exceptions that the feature engine and the assembler raise. *)
Inductive exn : Type :=
  | KeyError (key : string)
  | ValueError (message : string) (missing : list string)
  | AttributeError
  | DanglingReference
  | HeaderError.

(** A series without missing values, as [fillna] returns it. *)
Inductive series : Type :=
  | StrSeries (xs : list str)
  | IntSeries (xs : list Z).

(** [col.fillna(chr(0)[:0])], filling with the empty string *)
Definition fillna_empty (col : column) : series :=
  match col with
  | TextCol xs => StrSeries (default [] <$> xs)
  | NumCol xs => IntSeries xs
  end.

(** [s.str.len()]: the accessor [.str] raises on a column that holds no
    strings. *)
Definition str_len (s : series) : exn + column :=
  match s with
  | StrSeries xs => inr (NumCol ((fun x => Z.of_nat (length x)) <$> xs))
  | IntSeries _ => inl AttributeError
  end.

(** [str(z)] *)
Definition int_repr (z : Z) : str := lit (NilZero.string_of_int (Z.to_int z)).

(** [s.astype(str)] *)
Definition astype_str (s : series) : list str :=
  match s with
  | StrSeries xs => xs
  | IntSeries xs => int_repr <$> xs
  end.

(** ** The objects of a run: tables on the heap, and the file system that
    the assembler writes to. *)

Abbreviation loc := positive.
Abbreviation path := (list string).

Record world := {
  heap : gmap loc DataFrame;
  dirs : gset path;
  files : gmap path DataFrame;
}.

Definition set_heap (f : gmap loc DataFrame -> gmap loc DataFrame) (w : world) : world :=
  {| heap := f (heap w); dirs := dirs w; files := files w |}.

(** Computations that read and update the world and may raise. *)
Definition M (A : Type) : Type := world -> (exn + A) * world.

#[export] Instance M_ret : MRet M := fun A (a : A) (w : world) => (inr a, w).

#[export] Instance M_bind : MBind M := fun A B (k : A -> M B) (m : M A) (w : world) =>
  match m w with
  | (inl e, w') => (inl e, w')
  | (inr a, w') => k a w'
  end.

Definition raise {A} (e : exn) : M A := fun w => (inl e, w).

Definition lift {A} (r : exn + A) : M A := fun w => (r, w).

Definition when (b : bool) (m : M unit) : M unit := if b then m else mret ().

Definition deref (r : loc) : M DataFrame := fun w =>
  match heap w !! r with
  | Some d => (inr d, w)
  | None => (inl DanglingReference, w)
  end.

Definition alloc (d : DataFrame) : M loc := fun w =>
  let r := fresh (dom (heap w)) in (inr r, set_heap (insert r d) w).

Definition store (r : loc) (d : DataFrame) : M unit := fun w =>
  (inr (), set_heap (insert r d) w).

(** [df.copy()]: a new table with the same columns and values. *)
Definition df_copy (r : loc) : M loc := d ← deref r; alloc d.

(** [df.columns] *)
Definition df_columns (r : loc) : M (list string) := d ← deref r; mret (columns d).

(** [df[c]], which raises [KeyError] for a column that is not there. *)
Definition df_getitem (r : loc) (c : string) : M column :=
  d ← deref r;
  match getitem c d with
  | Some v => mret v
  | None => raise (KeyError c)
  end.

(** [df[c] = v], which updates the table that [df] refers to. *)
Definition df_setitem (r : loc) (c : string) (v : column) : M unit :=
  d ← deref r; store r (setitem c v d).

Definition not_in (cs : list string) (c : string) : bool := negb (bool_decide (c ∈ cs)).

(** ** features/features.py *)

Module EmailFeatureClass.

Record t := {
  subject_col : string;
  content_col : string;
  cols : list string;
}.

(** The defaults of the dataclass: [EmailFeatureClass()]. *)
Definition default : t := {|
  subject_col := "subject";
  content_col := "content";
  cols := ["num_cc"; "num_hops"; "subject_len"; "content_len"; "has_link"] |}.

Definition URL_RE : string := "https?://\S+|www\.\S+".

(** The function applied to every value of the [cc] column:
    [lambda x: len([a.strip() for a in x.split(", ") if a.strip()])]. *)
Definition count_cc (x : str) : nat :=
  length (List.filter (fun a => EmailDataset.nonempty (strip a)) (split (lit ", ") x)).

(** [s.apply(count_cc)]: on a value that is not a string, [x.split] raises. *)
Definition apply_count_cc (s : series) : exn + column :=
  match s with
  | StrSeries xs => inr (NumCol ((fun x => Z.of_nat (count_cc x)) <$> xs))
  | IntSeries [] => inr (NumCol [])
  | IntSeries (_ :: _) => inl AttributeError
  end.

Section Call.
Context {re : Regex}.

(** [(subj + " " + cont).str.contains(URL_RE).astype(int)] *)
Definition has_link_col (subj cont : list str) : column :=
  NumCol (zip_with (fun s c => if re_search URL_RE (s ++ [SP] ++ c) then 1%Z else 0%Z)
            subj cont).

(** [EmailFeatureClass.__call__] *)
Definition call (self : t) (df : loc) : M loc :=
  df ← df_copy df;
  cs ← df_columns df;
  when (not_in cs "subject_len" && bool_decide (subject_col self ∈ cs))
    (s ← df_getitem df (subject_col self);
     v ← lift (str_len (fillna_empty s));
     df_setitem df "subject_len" v);;
  cs ← df_columns df;
  when (not_in cs "content_len" && bool_decide (content_col self ∈ cs))
    (s ← df_getitem df (content_col self);
     v ← lift (str_len (fillna_empty s));
     df_setitem df "content_len" v);;
  cs ← df_columns df;
  when (not_in cs "has_link")
    (subj ← df_getitem df (subject_col self);
     cont ← df_getitem df (content_col self);
     df_setitem df "has_link"
       (has_link_col (astype_str (fillna_empty subj)) (astype_str (fillna_empty cont))));;
  cs ← df_columns df;
  when (not_in cs "num_cc" && bool_decide ("cc" ∈ cs))
    (s ← df_getitem df "cc";
     v ← lift (apply_count_cc (fillna_empty s));
     df_setitem df "num_cc" v);;
  cs ← df_columns df;
  match List.filter (not_in cs) (cols self) with
  | [] => df_copy df
  | missing => raise (ValueError "Missing expected columns: " missing)
  end.

End Call.

End EmailFeatureClass.

(** ** data/build_processed.py *)

Module BuildProcessed.

Definition keep : list string :=
  ["sender"; "recipient"; "num_cc"; "subject"; "content";
   "subject_len"; "content_len"; "has_link"; "num_hops"; "label"].

(** [out_path.parent] *)
Definition parent (p : path) : path := removelast p.

(** [p.mkdir(parents=True, exist_ok=True)]: the directory and all of its
    ancestors exist afterwards. *)
Definition mkdir_parents (p : path) : M unit := fun w =>
  (inr (), {| heap := heap w;
              dirs := dirs w ∪ list_to_set ((fun n => take n p) <$> seq 1 (length p));
              files := files w |}).

(** [df[keep].copy()]: the columns of [keep], in that order. *)
Definition project (names : list string) (r : loc) : M loc :=
  d ← deref r;
  alloc (omap (fun c => (fun v => (c, v)) <$> getitem c d) names).

(** [df.to_csv(out_path, index=False)]: the file holds the table. *)
Definition write_file (out : path) (d : DataFrame) : M unit := fun w =>
  (inr (), {| heap := heap w; dirs := dirs w; files := <[out := d]> (files w) |}).

Definition to_csv (r : loc) (out : path) : M unit :=
  d ← deref r; write_file out d.

(** [df[c] = df[c].fillna(chr(0)[:0]).astype(str)] *)
Definition clean_text (r : loc) (c : string) : M unit :=
  s ← df_getitem r c;
  df_setitem r c (TextCol (Some <$> astype_str (fillna_empty s))).

(** The assembler: [main] from the check of the columns to keep to the
    write of the file, on the table the feature engine returned. *)
Definition assemble (features_df : loc) (out : path) : M unit :=
  cs ← df_columns features_df;
  match List.filter (not_in cs) keep with
  | (_ :: _) as missing =>
      raise (ValueError "load_data() did not return expected columns: missing=" missing)
  | [] =>
      mkdir_parents (parent out);;
      raw_df ← project keep features_df;
      clean_text raw_df "subject";;
      clean_text raw_df "content";;
      to_csv raw_df out
  end.

Section Main.
Context {re : Regex}.

(** [main] after [load_data]: the feature engine, then the assembler. *)
Definition main_from (df : loc) (out : path) : M unit :=
  features_df ← EmailFeatureClass.call EmailFeatureClass.default df;
  assemble features_df out.

End Main.

End BuildProcessed.

(** ** Vocabulary of the statements *)

(** A word: not empty, and without whitespace. *)
Definition word (w : str) : Prop := w ≠ [] ∧ Forall (fun c => isspace c = false) w.

Definition head_space (s : str) : bool :=
  match s with c :: _ => isspace c | [] => false end.


(** An address that the re-derivation counts once: it is free of the
    separator and is not made of whitespace only. *)
Definition counted_once (a : str) : Prop :=
  contains (lit ", ") a = false ∧ strip a ≠ [].

(** Every row of [load] has the [num_cc] and [cc] that [cc_fields] builds
    from the addresses of the Cc headers of its message. *)
Definition cc_of_message {pkg : EmailPkg} (r : EmailDataset.EmailRecord) : Prop :=
  ∃ msg cc_hdrs addrs,
    get_all "Cc" msg = Some cc_hdrs ∧ getaddresses cc_hdrs = Some addrs ∧
    (EmailDataset.num_cc r, EmailDataset.cc r) = EmailDataset.cc_fields (snd <$> addrs).

(** [f] is [e] or lies below [e], at any depth. *)
Inductive inside (f : DirEntry) : DirEntry -> Prop :=
  | inside_here : inside f f
  | inside_below n cs x : x ∈ cs -> inside f x -> inside f (Dir n cs).

(** [m], started in a world that satisfies [P], ends with a result and a
    world that satisfy [Q]. *)
Definition hoare {A} (P : world -> Prop) (m : M A) (Q : exn + A -> world -> Prop) : Prop :=
  ∀ w, P w -> Q (m w).1 (m w).2.

(** The columns that the feature engine may add. *)
Definition derived : list string := ["subject_len"; "content_len"; "has_link"; "num_cc"].

(** While [__call__] runs on its copy at [df]: the copy holds [d], every
    other table of the world [w0] it started in is as it was, and so is the
    file system. *)
Definition working (w0 : world) (df : loc) (d : DataFrame) (w : world) : Prop :=
  heap w !! df = Some d ∧
  (∀ l v, l ≠ df -> heap w0 !! l = Some v -> heap w !! l = Some v) ∧
  dirs w = dirs w0 ∧ files w = files w0.

(** The copy has the columns of the input table [d0] and derived ones. *)
Definition grown (d0 d : DataFrame) : Prop :=
  ∀ c, c ∈ columns d -> c ∈ columns d0 ∨ c ∈ derived.

(** The invariant of the steps of [__call__]: the copy satisfies [I]. *)
Definition stays (I : DataFrame -> Prop) (w0 : world) (df : loc) (w : world) : Prop :=
  ∃ d, working w0 df d w ∧ I d.

(** A step that keeps the invariant and does not report missing columns. *)
Definition quiet (I : DataFrame -> Prop) (w0 : world) (df : loc) {A}
    (res : exn + A) (w : world) : Prop :=
  stays I w0 df w ∧ ∀ msg l, res ≠ inl (ValueError msg l).

(** A table from which [has_link] cannot be derived: it has no such column
    and lacks one of the two text columns. *)
Definition no_link_source (d : DataFrame) : Prop :=
  ("has_link" ∉ columns d) ∧ (("subject" ∉ columns d) ∨ ("content" ∉ columns d)).

(** The result of [__call__] and the world it leaves. *)
Definition call_post (self : EmailFeatureClass.t) (w0 : world) (df : loc)
    (d0 : DataFrame) (res : exn + loc) (w : world) : Prop :=
  ∃ d, working w0 df d w ∧ grown d0 d ∧
    match res with
    | inr r' =>
        heap w0 !! r' = None ∧ r' ≠ df ∧ heap w !! r' = Some d ∧
        List.filter (not_in (columns d)) (EmailFeatureClass.cols self) = []
    | inl (ValueError _ missing) =>
        missing = List.filter (not_in (columns d)) (EmailFeatureClass.cols self) ∧
        missing ≠ []
    | inl _ => True
    end.


(** ** Sample installation

    Instances of the library classes that are exact on ASCII texts in which
    none of the patterns of the sources has a match and which hold no
    character reference; the examples below use such texts only. *)

Module Sample.

Definition ascii_lower_char (c : char) : char :=
  if ((65 <=? c) && (c <=? 90))%N then (c + 32)%N else c.

Definition ascii_punct : list char :=
  [33; 34; 35; 37; 38; 39; 40; 41; 42; 44; 45; 46; 47; 58; 59; 63; 64;
   91; 92; 93; 95; 123; 125]%N.

Definition unicode : Unicode := {|
  lower := fun s => ascii_lower_char <$> s;
  ispunct := fun c => bool_decide (c ∈ ascii_punct);
  html_unescape := fun s => s |}.

Definition replace_high (b : list N) : str :=
  (fun c => if (c <? 128)%N then c else 65533%N) <$> b.

Definition codec : Codec := {|
  bytes_decode := fun cs b =>
    if bool_decide (cs ∈ [lit "utf-8"; lit "ascii"; lit "us-ascii"]) then Some (replace_high b)
    else if bool_decide (cs ∈ [lit "latin-1"; lit "iso-8859-1"]) then Some b
    else None;
  utf8_decode := replace_high |}.

Definition regex : Regex := {|
  re_sub := fun _ _ s => s;
  re_search := fun _ _ => false |}.

(** No spaCy model is installed. *)
Definition spacy : Spacy := {| spacy_load := fun _ => None |}.

End Sample.

(** Example messages (among them a multipart whose first part is a
    text/plain attachment, and one with two text/plain parts) and a
    configuration that has every step switched on but [enable]. *)
Module Examples.

Definition text_part (disp : option string) (ct : string) (text : string) : Message :=
  Single [] ct disp (Some (lit "us-ascii")) (lit text).

Definition attached_notes : Message := text_part (Some "attachment") "text/plain" "NOTES".
Definition greeting : Message := text_part None "text/plain" "hello".
Definition closing : Message := text_part None "text/plain" "bye".
Definition page : Message := text_part None "text/html" "hello in html".

Definition with_attachment : Message :=
  Multipart [] "multipart/mixed" None None [attached_notes; greeting].

Definition two_plain : Message :=
  Multipart [] "multipart/mixed" None None [greeting; closing].

Definition alternative : Message :=
  Multipart [] "multipart/alternative" None None [page; greeting].

Definition only_attachment : Message :=
  Multipart [] "multipart/mixed" None None [attached_notes].



Definition disabled_cfg : TextPreprocessor.PreprocessingCfg := {|
  TextPreprocessor.enable := false; TextPreprocessor.language := "en";
  TextPreprocessor.remove_html := true; TextPreprocessor.remove_urls := true;
  TextPreprocessor.remove_emails := true;
  TextPreprocessor.remove_user_handles := true;
  TextPreprocessor.remove_hashtags := true;
  TextPreprocessor.lowercase := true; TextPreprocessor.remove_digits := true;
  TextPreprocessor.remove_punctuation := true;
  TextPreprocessor.collapse_whitespace := true;
  TextPreprocessor.lemmatize := true |}.

End Examples.

(** Example tables and worlds. *)
Module Tables.

Definition one_table (d : DataFrame) : world :=
  {| heap := {[ 1%positive := d ]}; dirs := ∅; files := ∅ |}.

(** A record table without a [subject] column. *)
Definition no_subject : DataFrame :=
  [("content", TextCol [Some (lit "Lunch at noon?")]);
   ("cc", TextCol [Some []]);
   ("num_hops", NumCol [0%Z])].

(** A record table without a [content] column. *)
Definition no_content : DataFrame :=
  [("subject", TextCol [Some (lit "Hi")]);
   ("cc", TextCol [Some []]);
   ("num_hops", NumCol [0%Z])].

(** A record table without a [num_hops] column. *)
Definition no_hops : DataFrame :=
  [("sender", TextCol [Some (lit "alice@example.org")]);
   ("recipient", TextCol [Some (lit "bob@example.org")]);
   ("cc", TextCol [Some []]);
   ("subject", TextCol [Some (lit "Hi")]);
   ("content", TextCol [Some (lit "Lunch at noon?")]);
   ("label", TextCol [Some (lit "ham")])].

Definition out_path : path := ["data"; "processed"; "spamassassin.csv"].

End Tables.


(** ** The stand-alone builder: folders, rows and the row cap *)

Module Builder.

Definition is_dir (e : DirEntry) : bool :=
  match e with Dir _ _ => true | _ => false end.

Definition children (e : DirEntry) : list DirEntry :=
  match e with Dir _ cs => cs | _ => [] end.

(** One row of the table that [main] writes. *)
Record Row := {
  subject : str;
  body : content;
  label : Z;
}.

(** [f.read_bytes()]; [None] when it raises. *)
Definition read_bytes (f : DirEntry) : option (list N) :=
  match f with File _ data => data | _ => None end.

Inductive main_error : Type :=
  | SpamNotFound
  | HamNotFound.

Section Main.
Context {uni : Unicode} {cod : Codec} {pkg : EmailPkg}.

(** [p.name.lower() == name.lower()] *)
Definition same_name (name : string) (p : DirEntry) : bool :=
  bool_decide (lower (lit (entry_name p)) = lower (lit name)).

(** [find_dir_case_insensitive] on the entries that [root.iterdir()]
    yields. *)
Definition find_dir_case_insensitive (root : list DirEntry) (name : string)
    : option DirEntry :=
  List.find (fun p => is_dir p && same_name name p) root.

(** The loop of [main] over the files of one folder; [n] counts the rows
    appended so far.  A cap of 0 means no cap. *)
Fixpoint collect_rows (max_per_class : Z) (label : Z) (n : Z)
    (files : list (list string * DirEntry)) : list Row :=
  match files with
  | [] => []
  | f :: rest =>
      if negb (max_per_class =? 0)%Z && (max_per_class <=? n)%Z then []
      else
        match read_bytes f.2 ≫= BuildSpamassassin.extract_text_from_email with
        | None => collect_rows max_per_class label n rest
        | Some (subject, body) =>
            if EmailDataset.nonempty (strip subject) || content_nonempty (content_strip body)
            then {| subject := subject; body := body; label := label |}
                 :: collect_rows max_per_class label (n + 1)%Z rest
            else collect_rows max_per_class label n rest
        end
  end.

(** The rows that [main] writes: the ham folder with label 0, then the spam
    folder with label 1. *)
Definition main_rows (root : list DirEntry) (max_per_class : Z)
    : main_error + list Row :=
  match find_dir_case_insensitive root "SPAM",
        find_dir_case_insensitive root "EASY_HAM" with
  | None, _ => inl SpamNotFound
  | Some _, None => inl HamNotFound
  | Some spam_dir, Some ham_dir =>
      inr (collect_rows max_per_class 0 0
             (BuildSpamassassin.iter_email_files (children ham_dir))
           ++ collect_rows max_per_class 1 0
                (BuildSpamassassin.iter_email_files (children spam_dir)))
  end.

End Main.

End Builder.

(** ** config.py: the output directory of a model *)

Module TrainConfig.

(** [model_name.replace("/", "_")] *)
Definition safe_name (model_name : str) : str :=
  (fun c => if (c =? 47)%N then 95%N else c) <$> model_name.

(** [get_output_dir]: [base_output_dir / safe], on path components.  The
    path class drops a component that is empty or a single dot. *)
Definition get_output_dir (base_output_dir : list str) (model_name : str) : list str :=
  let safe := safe_name model_name in
  if bool_decide (safe = []) || bool_decide (safe = [46%N]) then base_output_dir
  else base_output_dir ++ [safe].

End TrainConfig.

(** ** A sample mail package

    A parser for messages of one text/plain part whose headers are unfolded
    lines [Name: value], none of them a MIME header; addresses are taken
    from headers that hold one bare address each.  Reading an address
    header whose value is a lone opening angle bracket raises, as the
    address parser of the library does (IndexError).  The package is exact
    on such ASCII messages, which the examples use. *)

Module SampleMail.

Fixpoint split_colon (acc : list N) (line : list N) : option (list N * list N) :=
  match line with
  | [] => None
  | c :: rest =>
      if (c =? 58)%N then Some (rev acc, rest) else split_colon (c :: acc) rest
  end.

Definition to_name (cs : list N) : string :=
  String.string_of_list_ascii (ascii_of_N <$> cs).

Definition plain (hs : list (string * str)) (b : list N) : Message :=
  Single (rev hs) "text/plain" None None b.

Fixpoint parse_lines (hs : list (string * str)) (lines : list str) : Message :=
  match lines with
  | [] => plain hs []
  | l :: rest =>
      match l with
      | [] => plain hs (join [NL] rest)
      | _ :: _ =>
          match split_colon [] l with
          | Some (n, v) => parse_lines ((to_name n, strip v) :: hs) rest
          | None => plain hs (join [NL] lines)
          end
      end
  end.

(** The headers whose value is parsed as a list of addresses. *)
Definition address_headers : list string :=
  ["from"; "sender"; "reply-to"; "to"; "cc"; "bcc"].

Definition email_pkg : EmailPkg := {|
  parsebytes := fun raw => Some (parse_lines [] (split [NL] raw));
  header_fetch_parse := fun name v =>
    if bool_decide (name_lower name ∈ address_headers) && bool_decide (v = lit "<")
    then None else Some v;
  getaddresses := fun hs => Some ((fun h => ([], h)) <$> hs);
  get_text_content := fun m =>
    match m with
    | Single _ _ _ _ b => Some (Sample.replace_high b)
    | Multipart _ _ _ _ _ => None
    end |}.

(** The two files of a small corpus. *)
Definition spam_file : list N :=
  lit "Subject: Win now" ++ [NL; NL] ++ lit "Click http://evil.example/x".
Definition ham_file : list N :=
  lit "Subject: Hi" ++ [NL; NL] ++ lit "Lunch at noon?".

(** A file that parses and has a body, with a malformed [To] header. *)
Definition bad_to_file : list N :=
  lit "Subject: Hi" ++ [NL] ++ lit "To: <" ++ [NL; NL] ++ lit "Lunch at noon?".

Definition corpus : list DirEntry :=
  [Dir "Spam" [File "s1" (Some spam_file); File "s2" None];
   File "README" (Some (lit "notes"));
   Dir "easy_ham" [File "h1" (Some ham_file); Dir "old" [File "h2" (Some ham_file)]]].

End SampleMail.

(** ** Further vocabulary *)


(** The configuration with the [lemmatize] option set to [b]. *)
Definition set_lemmatize (b : bool) (cfg : TextPreprocessor.PreprocessingCfg)
    : TextPreprocessor.PreprocessingCfg :=
  {| TextPreprocessor.enable := TextPreprocessor.enable cfg;
     TextPreprocessor.language := TextPreprocessor.language cfg;
     TextPreprocessor.remove_html := TextPreprocessor.remove_html cfg;
     TextPreprocessor.remove_urls := TextPreprocessor.remove_urls cfg;
     TextPreprocessor.remove_emails := TextPreprocessor.remove_emails cfg;
     TextPreprocessor.remove_user_handles := TextPreprocessor.remove_user_handles cfg;
     TextPreprocessor.remove_hashtags := TextPreprocessor.remove_hashtags cfg;
     TextPreprocessor.lowercase := TextPreprocessor.lowercase cfg;
     TextPreprocessor.remove_digits := TextPreprocessor.remove_digits cfg;
     TextPreprocessor.remove_punctuation := TextPreprocessor.remove_punctuation cfg;
     TextPreprocessor.collapse_whitespace := TextPreprocessor.collapse_whitespace cfg;
     TextPreprocessor.lemmatize := b |}.

(** The characters of a text that are not whitespace, in order. *)
Definition visible (s : str) : str := List.filter (fun c => negb (isspace c)) s.

(** A row as the stand-alone builder keeps it: labelled [l], with a trimmed
    body, and with a subject or a body that is not empty. *)
Definition good_row (l : Z) (r : Builder.Row) : Prop :=
  Builder.label r = l ∧ content_strip (Builder.body r) = Builder.body r ∧
  (strip (Builder.subject r) ≠ [] ∨ content_nonempty (Builder.body r) = true).

(** A regular file that lies directly in the folder. *)
Definition top_file (pe : list string * DirEntry) : bool :=
  is_file pe.2 && (length pe.1 =? 1)%nat.

Section LoaderVocabulary.
Import EmailDataset.
Context {re : Regex} {uni : Unicode} {cod : Codec} {pkg : EmailPkg}.

(** What one directory entry gives to [load]: [None] when reading its
    headers raises, [Some None] when it gives no row (it is no regular file,
    or it is skipped), and its row otherwise. *)
Definition entry_row (label : option string) (e : DirEntry)
    : option (option EmailRecord) :=
  match e with
  | File name data =>
      match data ≫= parsebytes with
      | None => Some None
      | Some msg =>
          subj ← get "Subject" [] msg;
          sender ← get "From" [] msg;
          to ← get "To" [] msg;
          recvd ← get_all "Received" msg;
          cc_hdrs ← get_all "Cc" msg;
          addrs ← getaddresses cc_hdrs;
          Some (content ← _get_body msg;
                if nonempty subj || nonempty content || nonempty sender
                then Some {| file := name; sender := sender; recipient := to;
                             cc := (cc_fields (snd <$> addrs)).2;
                             num_cc := (cc_fields (snd <$> addrs)).1;
                             subject := subj; content := content;
                             num_hops := length recvd; label := label |}
                else None)
      end
  | _ => Some None
  end.

(** A regular file that [load] counts as skipped. *)
Definition skips (label : option string) (e : DirEntry) : bool :=
  is_file e && match entry_row label e with Some None => true | _ => false end.

(** The results of two loads, one after the other. *)
Definition then_load (a b : option (list EmailRecord * nat))
    : option (list EmailRecord * nat) :=
  match a, b with
  | Some (r1, s1), Some (r2, s2) => Some (r1 ++ r2, (s1 + s2)%nat)
  | _, _ => None
  end.

End LoaderVocabulary.

(** One step leaves the table as it is or appends one new column. *)
Definition appends (dst : string) (d d' : DataFrame) : Prop :=
  d' = d ∨ ((dst ∉ columns d) ∧ ∃ v, d' = d ++ [(dst, v)]).

(** The table [d] is [d0] followed by derived columns that [d0] lacks. *)
Definition extends (d0 d : DataFrame) : Prop :=
  ∃ extra, d = d0 ++ extra ∧
           Forall (fun cv : string * column => cv.1 ∈ derived ∧ cv.1 ∉ columns d0) extra.

(** ** The feature engine as a function on tables

    What [__call__] does to its copy, column by column, without the heap:
    each step returns the table it leaves or the exception it raises. *)

Module Features.

Definition bind {A B} (r : exn + A) (k : A -> exn + B) : exn + B :=
  match r with inl e => inl e | inr a => k a end.

(** A column derived from one source column by [f], added when it is not
    there and the source column is. *)
Definition add_from (f : series -> exn + column) (dst src : string)
    (d : DataFrame) : exn + DataFrame :=
  if not_in (columns d) dst && bool_decide (src ∈ columns d) then
    match getitem src d with
    | None => inl (KeyError src)
    | Some s => bind (f (fillna_empty s)) (fun v => inr (setitem dst v d))
    end
  else inr d.

Section Spec.
Context {re : Regex}.

(** [has_link], added when it is not there; both text columns are read
    whether they are there or not. *)
Definition add_has_link (self : EmailFeatureClass.t) (d : DataFrame) : exn + DataFrame :=
  if not_in (columns d) "has_link" then
    match getitem (EmailFeatureClass.subject_col self) d with
    | None => inl (KeyError (EmailFeatureClass.subject_col self))
    | Some subj =>
        match getitem (EmailFeatureClass.content_col self) d with
        | None => inl (KeyError (EmailFeatureClass.content_col self))
        | Some cont =>
            inr (setitem "has_link"
                   (EmailFeatureClass.has_link_col (astype_str (fillna_empty subj))
                      (astype_str (fillna_empty cont))) d)
        end
    end
  else inr d.

Definition check_cols (self : EmailFeatureClass.t) (d : DataFrame) : exn + DataFrame :=
  match List.filter (not_in (columns d)) (EmailFeatureClass.cols self) with
  | [] => inr d
  | missing => inl (ValueError "Missing expected columns: " missing)
  end.

Definition features (self : EmailFeatureClass.t) (d : DataFrame) : exn + DataFrame :=
  bind (add_from str_len "subject_len" (EmailFeatureClass.subject_col self) d) (fun d =>
  bind (add_from str_len "content_len" (EmailFeatureClass.content_col self) d) (fun d =>
  bind (add_has_link self d) (fun d =>
  bind (add_from EmailFeatureClass.apply_count_cc "num_cc" "cc" d) (fun d =>
  check_cols self d)))).

End Spec.

End Features.

(** ** The table of a run and the table that is written *)

Module Pipeline.

(** [pd.DataFrame(rows)]: no column when there is no row; otherwise the
    keys of the rows in their order, [label] among them when a row has one.
    Text values are held as they are, counts as integers. *)
Definition frame_of_rows (rows : list EmailDataset.EmailRecord) : DataFrame :=
  match rows with
  | [] => []
  | _ :: _ =>
      [("file", TextCol ((fun r => Some (lit (EmailDataset.file r))) <$> rows));
       ("sender", TextCol ((fun r => Some (EmailDataset.sender r)) <$> rows));
       ("recipient", TextCol ((fun r => Some (EmailDataset.recipient r)) <$> rows));
       ("cc", TextCol ((fun r => Some (EmailDataset.cc r)) <$> rows));
       ("num_cc", NumCol ((fun r => Z.of_nat (EmailDataset.num_cc r)) <$> rows));
       ("subject", TextCol ((fun r => Some (EmailDataset.subject r)) <$> rows));
       ("content", TextCol ((fun r => Some (EmailDataset.content r)) <$> rows));
       ("num_hops", NumCol ((fun r => Z.of_nat (EmailDataset.num_hops r)) <$> rows))]
      ++ (if existsb (fun r => bool_decide (is_Some (EmailDataset.label r))) rows
          then [("label", TextCol ((fun r => lit <$> EmailDataset.label r) <$> rows))]
          else [])
  end.

(** The columns of [names] that the table has, in the order of [names]. *)
Definition project_cols (names : list string) (d : DataFrame) : DataFrame :=
  omap (fun c => (fun v => (c, v)) <$> getitem c d) names.

(** A text column without missing values. *)
Definition clean_col (c : string) (d : DataFrame) : DataFrame :=
  match getitem c d with
  | Some s => setitem c (TextCol (Some <$> astype_str (fillna_empty s))) d
  | None => d
  end.

(** The table that the assembler writes for a feature table. *)
Definition assembled (d : DataFrame) : DataFrame :=
  clean_col "content" (clean_col "subject" (project_cols BuildProcessed.keep d)).

(** The directories that [mkdir] makes sure of for an output path. *)
Definition made_dirs (out : path) : gset path :=
  list_to_set ((fun n => take n (BuildProcessed.parent out))
                 <$> seq 1 (length (BuildProcessed.parent out))).

Section Main.
Context {re : Regex} {uni : Unicode} {cod : Codec} {pkg : EmailPkg}.

(** [main] of build_processed.py once both directories are known to exist,
    on their listings: the table of [load_data] is a new object, which the
    feature engine and the assembler work on.  [pd.concat] of the two
    tables holds the rows of both in order; a directory without rows gives
    a table without columns, which adds none.  An exception that leaves
    [load_data] leaves [main]. *)
Definition main_on (spam_dir ham_dir : list DirEntry) (out : path) : M unit :=
  match EmailDataset.load_data spam_dir ham_dir with
  | None => raise HeaderError
  | Some rows => df ← alloc (frame_of_rows rows); BuildProcessed.main_from df out
  end.

End Main.

End Pipeline.

(** ** The tables of a run in closed form *)

Module Closed.

Definition text_of (f : EmailDataset.EmailRecord -> str)
    (rows : list EmailDataset.EmailRecord) : column :=
  TextCol ((fun r => Some (f r)) <$> rows).

Definition count_of (f : EmailDataset.EmailRecord -> nat)
    (rows : list EmailDataset.EmailRecord) : column :=
  NumCol ((fun r => Z.of_nat (f r)) <$> rows).

Section Link.
Context {re : Regex}.

(** 1 when the subject, a space and the content hold a match of the URL
    pattern, else 0. *)
Definition link_flag (r : EmailDataset.EmailRecord) : Z :=
  if re_search EmailFeatureClass.URL_RE
       (EmailDataset.subject r ++ [SP] ++ EmailDataset.content r)
  then 1%Z else 0%Z.

(** The three columns that the feature engine adds to the table of the
    rows. *)
Definition added (rows : list EmailDataset.EmailRecord) : DataFrame :=
  [("subject_len", count_of (fun r => length (EmailDataset.subject r)) rows);
   ("content_len", count_of (fun r => length (EmailDataset.content r)) rows);
   ("has_link", NumCol (link_flag <$> rows))].

(** The table that is written for the rows. *)
Definition written (rows : list EmailDataset.EmailRecord) : DataFrame :=
  [("sender", text_of EmailDataset.sender rows);
   ("recipient", text_of EmailDataset.recipient rows);
   ("num_cc", count_of EmailDataset.num_cc rows);
   ("subject", text_of EmailDataset.subject rows);
   ("content", text_of EmailDataset.content rows);
   ("subject_len", count_of (fun r => length (EmailDataset.subject r)) rows);
   ("content_len", count_of (fun r => length (EmailDataset.content r)) rows);
   ("has_link", NumCol (link_flag <$> rows));
   ("num_hops", count_of EmailDataset.num_hops rows);
   ("label", TextCol ((fun r => lit <$> EmailDataset.label r) <$> rows))].

End Link.

End Closed.

(** Rows as the loader builds them, for the examples, and their table. *)
Module Runs.

Definition records : list EmailDataset.EmailRecord :=
  [ {| EmailDataset.file := "0001.a";
       EmailDataset.sender := lit "eve@example.org";
       EmailDataset.recipient := lit "bob@example.org";
       EmailDataset.cc := [];
       EmailDataset.num_cc := 0;
       EmailDataset.subject := lit "Win now";
       EmailDataset.content := lit "Claim your prize";
       EmailDataset.num_hops := 2;
       EmailDataset.label := Some "spam" |};
    {| EmailDataset.file := "0002.b";
       EmailDataset.sender := lit "alice@example.org";
       EmailDataset.recipient := lit "bob@example.org";
       EmailDataset.cc := lit "carol@example.org";
       EmailDataset.num_cc := 1;
       EmailDataset.subject := lit "Hi";
       EmailDataset.content := lit "Lunch at noon?";
       EmailDataset.num_hops := 1;
       EmailDataset.label := Some "ham" |} ].

Definition loaded : DataFrame := Pipeline.frame_of_rows records.

Definition world_of_loaded : world := Tables.one_table loaded.

End Runs.

(** * Properties *)

(** Membership in a list that is given in full is decided by evaluation. *)
Ltac by_decide := refine (bool_decide_unpack _ _); vm_compute; exact I.


(** ** Strings *)

Section StringFacts.

Lemma isspace_SP : isspace SP = true.
Proof. reflexivity. Qed.

Lemma isspace_NL : isspace NL = true.
Proof. reflexivity. Qed.

Lemma rstrip_cons_word c s : isspace c = false -> rstrip (c :: s) = c :: rstrip s.
Proof. intros Hc. simpl. rewrite Hc. by destruct (rstrip s). Qed.

Lemma rstrip_cons_space c s :
  isspace c = true ->
  rstrip (c :: s) = match rstrip s with [] => [] | r => c :: r end.
Proof. intros Hc. simpl. by rewrite Hc. Qed.

Lemma words_word s : Forall word (words s).
Proof.
  induction s as [|c s IH]; simpl; [constructor|].
  destruct (isspace c) eqn:Hc; [done|].
  destruct s as [|d s'].
  { repeat constructor; done. }
  destruct (isspace d) eqn:Hd.
  { constructor; [|done]. repeat constructor; done. }
  destruct (words (d :: s')) as [|w ws] eqn:Hw.
  { repeat constructor; done. }
  inversion IH as [|? ? [Hne Hall] Hrest]; subst.
  constructor; [|done]. split; [done|]. by constructor.
Qed.

Lemma join_word_nil ws : Forall word ws -> join [SP] ws = [] -> ws = [].
Proof.
  intros Hall Hj. destruct ws as [|w ws]; [done|].
  inversion Hall as [|? ? [Hne _] _]; subst.
  simpl in Hj. destruct ws; [done|]. by destruct w.
Qed.

Lemma join_cons_cons (sep x y : str) (xs : list str) :
  join sep (x :: y :: xs) = x ++ sep ++ join sep (y :: xs).
Proof. reflexivity. Qed.

Lemma lstrip_sub_ws_runs b s : lstrip (sub_ws_runs b s) = sub_ws_runs true s.
Proof.
  revert b. induction s as [|c s IH]; intros b; simpl; [done|].
  destruct (isspace c) eqn:Hc.
  - destruct b; simpl; by rewrite IH.
  - simpl. by rewrite Hc.
Qed.

(** The collapsed text, with and without the space that stands for the
    whitespace the text starts with. *)
Lemma rstrip_sub_ws_runs s :
  rstrip (sub_ws_runs true s) = join [SP] (words s) ∧
  rstrip (sub_ws_runs false s) =
    (if head_space s then
       match words s with [] => [] | _ :: _ => SP :: join [SP] (words s) end
     else join [SP] (words s)).
Proof.
  induction s as [|c s [IH1 IH2]]; [done|].
  cbn [sub_ws_runs head_space].
  destruct (isspace c) eqn:Hc.
  - assert (words (c :: s) = words s) as -> by (simpl; by rewrite Hc).
    split; [done|].
    rewrite rstrip_cons_space by done. rewrite IH1.
    destruct (words s) as [|w ws] eqn:Hw; [done|].
    destruct (join [SP] (w :: ws)) eqn:Hj; [|done].
    apply join_word_nil in Hj; [done|]. rewrite <-Hw. apply words_word.
  - assert (c :: (if head_space s
                  then match words s with [] => [] | _ :: _ => SP :: join [SP] (words s) end
                  else join [SP] (words s)) = join [SP] (words (c :: s))) as E.
    { simpl words. rewrite Hc.
      destruct s as [|d s']; [done|].
      cbn [head_space]. destruct (isspace d) eqn:Hd.
      + destruct (words (d :: s')) as [|w ws]; done.
      + destruct (words (d :: s')) as [|w ws]; [done|].
        destruct ws; done. }
    rewrite rstrip_cons_word by done. rewrite IH2. split; exact E.
Qed.

Lemma words_word_id w : word w -> words w = [w].
Proof.
  intros [Hne Hall]. induction w as [|c w IH]; [done|].
  inversion Hall as [|? ? Hc Hw]; subst. simpl. rewrite Hc.
  destruct w as [|d w']; [done|].
  inversion Hw as [|? ? Hd _]; subst. rewrite Hd.
  rewrite IH; done.
Qed.

Lemma words_word_app w rest :
  word w -> words (w ++ SP :: rest) = w :: words rest.
Proof.
  intros [Hne Hall]. induction w as [|c w IH]; [done|].
  inversion Hall as [|? ? Hc Hw]; subst.
  destruct w as [|d w'].
  - simpl. rewrite Hc. done.
  - inversion Hw as [|? ? Hd _]; subst.
    change (words ((c :: d :: w') ++ SP :: rest))
      with (if isspace c then words ((d :: w') ++ SP :: rest)
            else if isspace d then [c] :: words ((d :: w') ++ SP :: rest)
            else match words ((d :: w') ++ SP :: rest) with
                 | w :: ws => (c :: w) :: ws
                 | [] => [[c]]
                 end).
    rewrite Hc, Hd, IH; done.
Qed.

Lemma words_join ws : Forall word ws -> words (join [SP] ws) = ws.
Proof.
  induction 1 as [|w ws Hw Hws IH]; [done|].
  destruct ws as [|w' ws'].
  - by apply words_word_id.
  - rewrite join_cons_cons.
    change ([SP] ++ join [SP] (w' :: ws')) with (SP :: join [SP] (w' :: ws')).
    rewrite words_word_app by done. by rewrite IH.
Qed.

End StringFacts.

(** ** Text normaliser *)

Section NormaliserFacts.
Import TextPreprocessor.

(** The collapsing step is the one the specification describes. *)
Lemma collapse_refines (s : str) : collapse s = collapse_spec s.
Proof.
  unfold collapse, collapse_spec, strip.
  rewrite lstrip_sub_ws_runs. apply rstrip_sub_ws_runs.
Qed.

Lemma collapse_spec_idempotent (s : str) :
  collapse_spec (collapse_spec s) = collapse_spec s.
Proof.
  unfold collapse_spec. rewrite words_join; [done|]. apply words_word.
Qed.

(** With only [collapse_whitespace] switched on, [__call__] unescapes the
    character references and collapses the whitespace. *)
Lemma call_collapse_only {re : Regex} {uni : Unicode} {nlp : Spacy} (cfg : PreprocessingCfg) (text : str) :
  enable cfg = true -> remove_html cfg = false -> remove_urls cfg = false ->
  remove_emails cfg = false -> remove_user_handles cfg = false ->
  remove_hashtags cfg = false -> lowercase cfg = false ->
  remove_digits cfg = false -> remove_punctuation cfg = false ->
  collapse_whitespace cfg = true -> lemmatize cfg = false ->
  call cfg text = collapse (html_unescape text).
Proof.
  intros. unfold call, step.
  repeat match goal with E : _ cfg = _ |- _ => rewrite E; clear E end.
  done.
Qed.

(** C8. When [enable] is false, the text normaliser returns its input
    unchanged, whatever the other options are and whatever the text is. *)
Theorem call_disabled_identity {re : Regex} {uni : Unicode} {nlp : Spacy}
    (cfg : PreprocessingCfg) (text : str) :
  enable cfg = false -> call cfg text = text.
Proof. intros E. unfold call. by rewrite E. Qed.

Lemma call_disabled_identity_witness :
  enable Examples.disabled_cfg = false ∧
  call (re := Sample.regex) (uni := Sample.unicode) (nlp := Sample.spacy)
    Examples.disabled_cfg (lit "  Hello   WORLD 42!  ") = lit "  Hello   WORLD 42!  ".
Proof.
  split; [reflexivity|].
  apply (call_disabled_identity (re := Sample.regex) (uni := Sample.unicode)
           (nlp := Sample.spacy) Examples.disabled_cfg); reflexivity.
Defined.

(** C9. The whitespace-collapsing step turns a text into its maximal runs of
    non-whitespace characters separated by single spaces, so that every
    run of whitespace inside becomes one space and none is left at either
    end; applying the step to its own result changes nothing. *)
Theorem collapse_whitespace_step (s : str) :
  collapse s = collapse_spec s ∧ collapse (collapse s) = collapse s.
Proof.
  split; [apply collapse_refines|].
  rewrite !collapse_refines. apply collapse_spec_idempotent.
Qed.

Example collapse_ex :
  collapse (lit "  a   b" ++ [9; 10; 160]%N ++ lit "c ") = lit "a b c".
Proof. reflexivity. Qed.

End NormaliserFacts.

(** ** Record extractor: the cc count and its re-derivation *)

Section CcFacts.
Import EmailDataset EmailFeatureClass.

Local Abbreviation sep := (lit ", ").

(** [sep] does not start inside a piece that is free of it and end in the
    separator that follows the piece. *)
Lemma startswith_sep_app c x t :
  contains sep (c :: x) = false -> startswith sep ((c :: x) ++ sep ++ t) = false.
Proof.
  intros Hc. simpl in Hc. apply orb_false_elim in Hc as [Hc _].
  destruct x as [|d x]; simpl in *.
  - destruct (44 =? c)%N; done.
  - destruct (44 =? c)%N; [|done]. destruct (32 =? d)%N; done.
Qed.

Lemma contains_cons_false c x : contains sep (c :: x) = false -> contains sep x = false.
Proof. simpl. intros Hc. apply orb_false_elim in Hc as [_ Hc]. done. Qed.

Lemma split_go_piece x cur t :
  contains sep x = false ->
  split_go sep 0 cur (x ++ sep ++ t) = (rev cur ++ x) :: split_go sep 0 [] t.
Proof.
  revert cur. induction x as [|c x IH]; intros cur Hx.
  - rewrite app_nil_r. reflexivity.
  - pose proof (startswith_sep_app c x t Hx) as Hs.
    change (split_go sep 0 cur ((c :: x) ++ sep ++ t))
      with (if startswith sep ((c :: x) ++ sep ++ t)
            then rev cur :: split_go sep (Nat.pred (length sep)) [] (x ++ sep ++ t)
            else split_go sep 0 (c :: cur) (x ++ sep ++ t)).
    rewrite Hs, IH by (by eapply contains_cons_false).
    simpl. by rewrite <-app_assoc.
Qed.

Lemma split_go_last x cur :
  contains sep x = false -> split_go sep 0 cur x = [rev cur ++ x].
Proof.
  revert cur. induction x as [|c x IH]; intros cur Hx.
  - simpl. by rewrite app_nil_r.
  - assert (startswith sep (c :: x) = false) as Hs.
    { simpl in Hx. by apply orb_false_elim in Hx as [Hx _]. }
    change (split_go sep 0 cur (c :: x))
      with (if startswith sep (c :: x)
            then rev cur :: split_go sep (Nat.pred (length sep)) [] x
            else split_go sep 0 (c :: cur) x).
    rewrite Hs, IH by (by eapply contains_cons_false).
    simpl. by rewrite <-app_assoc.
Qed.

(** Splitting a joined list gives the list back when no element holds the
    separator. *)
Lemma split_join xs :
  xs ≠ [] -> Forall (fun x => contains sep x = false) xs ->
  split sep (join sep xs) = xs.
Proof.
  intros Hne Hall. unfold split.
  induction Hall as [|x xs Hx Hxs IH]; [done|].
  destruct xs as [|y ys].
  - simpl join. by rewrite split_go_last.
  - rewrite join_cons_cons, split_go_piece by done. simpl rev. simpl app at 1.
    f_equal. by apply IH.
Qed.

Lemma count_cc_join xs :
  Forall counted_once xs -> count_cc (join sep xs) = length xs.
Proof.
  intros Hall. unfold count_cc.
  destruct xs as [|x xs']; [done|].
  rewrite split_join; [|done|by eapply Forall_impl; [exact Hall|intros ? []]].
  induction Hall as [|a l [_ Ha] _ IH]; [done|].
  simpl. destruct (strip a); [done|]. simpl. by rewrite IH.
Qed.

Lemma count_cc_cc_fields (cc_addrs : list str) :
  Forall (fun a => a ≠ [] -> counted_once a) cc_addrs ->
  count_cc (cc_fields cc_addrs).2 = (cc_fields cc_addrs).1.
Proof.
  intros Hall. unfold cc_fields. cbn [fst snd].
  apply count_cc_join. induction Hall as [|a l Ha _ IH]; [constructor|].
  simpl. destruct a; simpl; [done|]. constructor; [by apply Ha|done].
Qed.

(** C5 (as amended). When every non-empty address that [getaddresses]
    returned for the Cc headers is free of the separator [", "] and is not
    made of whitespace only, [num_cc] equals the number of non-empty entries
    of the assembled [cc] string split on [", "], and the feature engine
    derives the same number from a [cc] column holding that string. *)
Theorem num_cc_roundtrip (cc_addrs : list str) :
  Forall (fun a => a ≠ [] -> counted_once a) cc_addrs ->
  let '(num_cc, cc_txt) := cc_fields cc_addrs in
  count_cc cc_txt = num_cc ∧
  apply_count_cc (fillna_empty (TextCol [Some cc_txt])) = inr (NumCol [Z.of_nat num_cc]).
Proof.
  intros Hall. pose proof (count_cc_cc_fields cc_addrs Hall) as E.
  destruct (cc_fields cc_addrs) as [n txt]. cbn [fst snd] in E.
  split; [done|]. simpl. by rewrite E.
Qed.

Lemma num_cc_roundtrip_witness :
  let '(num_cc, cc_txt) :=
    cc_fields [lit "alice@example.org"; []; lit "bob@example.org"] in
  count_cc cc_txt = num_cc ∧
  apply_count_cc (fillna_empty (TextCol [Some cc_txt])) = inr (NumCol [Z.of_nat num_cc]).
Proof.
  apply (num_cc_roundtrip [lit "alice@example.org"; []; lit "bob@example.org"]).
  constructor; [intros _; split; [reflexivity|vm_compute; discriminate]|].
  constructor; [intros Hne; contradiction|].
  constructor; [intros _; split; [reflexivity|vm_compute; discriminate]|].
  constructor.
Defined.

(** C5 (as stated) fails: for the single address [Smith, John], which
    [getaddresses] returns for a Cc header that holds this quoted display
    name and no address, [num_cc] is 1 and the re-derivation gives 2. *)
Lemma num_cc_roundtrip_fails :
  let '(num_cc, cc_txt) := cc_fields [lit "Smith, John"] in
  num_cc = 1%nat ∧ cc_txt = lit "Smith, John" ∧ count_cc cc_txt = 2%nat ∧
  count_cc cc_txt ≠ num_cc.
Proof. vm_compute. repeat split; congruence. Qed.

End CcFacts.

(** ** Corpus loader *)

Section LoaderFacts.
Import EmailDataset BuildSpamassassin.
Context {re : Regex} {uni : Unicode} {cod : Codec} {pkg : EmailPkg}.

(** An entry that is not a regular file changes neither the rows nor the
    skip counter. *)
Lemma load_entry_other label st e :
  is_file e = false -> load_entry label st e = Some st.
Proof. destruct st, e; done. Qed.

(** A regular file adds exactly one row or exactly one skip, unless reading
    its headers raises. *)
Lemma load_entry_file label st e :
  is_file e = true ->
  load_entry label st e = None ∨
  (∃ r, load_entry label st e = Some (st.1 ++ [r], st.2)) ∨
  load_entry label st e = Some (st.1, S st.2).
Proof.
  destruct st as [rows skipped], e as [name data| |]; [intros _|done..].
  cbn [load_entry fst snd]. destruct (data ≫= parsebytes) as [msg|]; [|by right; right].
  destruct (get "Subject" [] msg) as [subj|]; cbn [mbind option_bind]; [|by left].
  destruct (get "From" [] msg) as [sender|]; cbn [mbind option_bind]; [|by left].
  destruct (get "To" [] msg) as [to|]; cbn [mbind option_bind]; [|by left].
  destruct (get_all "Received" msg) as [recvd|]; cbn [mbind option_bind]; [|by left].
  destruct (get_all "Cc" msg) as [cc_hdrs|]; cbn [mbind option_bind]; [|by left].
  destruct (getaddresses cc_hdrs) as [addrs|]; cbn [mbind option_bind]; [|by left].
  right.
  destruct (cc_fields (snd <$> addrs)) as [num_cc cc_txt].
  destruct (_get_body msg) as [content|]; [|by right].
  destruct (negb _); [by right|]. left. eauto.
Qed.

Lemma load_entry_count label st e st' :
  load_entry label st e = Some st' ->
  (length st'.1 + st'.2 = length st.1 + st.2 + (if is_file e then 1 else 0))%nat.
Proof.
  intros Hst. destruct (is_file e) eqn:He.
  - destruct (load_entry_file label st e He) as [E|[[r E]|E]];
      rewrite E in Hst; [done|injection Hst as <-..]; simpl.
    + rewrite length_app. simpl. lia.
    + lia.
  - rewrite load_entry_other in Hst by done. injection Hst as <-. lia.
Qed.

Lemma load_loop_count label entries st st' :
  load_loop label st entries = Some st' ->
  (length st'.1 + st'.2 =
   length st.1 + st.2 + length (List.filter is_file entries))%nat.
Proof.
  revert st. induction entries as [|e entries IH]; intros st; cbn [load_loop List.filter].
  - intros [= <-]. simpl. lia.
  - destruct (load_entry label st e) as [st1|] eqn:E; [|done]. cbn [mbind option_bind].
    intros Hst'. rewrite (IH _ Hst'), (load_entry_count _ _ _ _ E).
    destruct (is_file e); simpl; lia.
Qed.

(** Whenever [load] returns, the rows plus the skips are the regular files
    of the listing. *)
Lemma load_count entries label rows skipped :
  load entries label = Some (rows, skipped) ->
  (length rows + skipped = length (List.filter is_file entries))%nat.
Proof. intros Hl. apply load_loop_count in Hl. simpl in Hl. lia. Qed.

(** A file whose headers cannot be read makes the whole load raise, whatever
    the files before it and after it are. *)
Lemma load_loop_raises label entries e :
  e ∈ entries -> (∀ st, load_entry label st e = None) ->
  ∀ st, load_loop label st entries = None.
Proof.
  intros He Hraise. induction entries as [|e' entries IH]; intros st.
  - by apply elem_of_nil in He.
  - cbn [load_loop]. apply elem_of_cons in He as [<-|He].
    + by rewrite Hraise.
    + destruct (load_entry label st e') as [st1|]; [|done]. by apply IH.
Qed.

Lemma load_entry_raises label name raw msg st :
  parsebytes raw = Some msg -> get "To" [] msg = None ->
  load_entry label st (File name (Some raw)) = None.
Proof.
  intros Hp Hto. destruct st as [rows skipped]. cbn [load_entry mbind option_bind].
  rewrite Hp, Hto.
  destruct (get "Subject" [] msg); [|done]. by destruct (get "From" [] msg).
Qed.

Lemma load_raises entries label name raw msg :
  File name (Some raw) ∈ entries ->
  parsebytes raw = Some msg -> get "To" [] msg = None ->
  load entries label = None.
Proof.
  intros He Hp Hto. apply (load_loop_raises label entries _ He).
  intros st. by eapply load_entry_raises.
Qed.

End LoaderFacts.

(** C2, at a directory with two regular files.  The first file parses and
    has a subject and a body, and holds the header [To: <]: reading that
    header raises outside the two [try] blocks of [load], so [load] raises.
    It returns neither rows nor a skip count, and the file has added neither
    a row nor a skip, although the second file alone gives one row. *)
Theorem load_aborts_on_bad_header :
  EmailDataset.load (re := Sample.regex) (uni := Sample.unicode) (cod := Sample.codec)
    (pkg := SampleMail.email_pkg)
    [File "0001" (Some SampleMail.bad_to_file); File "0002" (Some SampleMail.ham_file)]
    (Some "ham") = None ∧
  (∃ msg, parsebytes (EmailPkg := SampleMail.email_pkg) SampleMail.bad_to_file = Some msg ∧
          get (pkg := SampleMail.email_pkg) "Subject" [] msg = Some (lit "Hi") ∧
          get (pkg := SampleMail.email_pkg) "To" [] msg = None ∧
          EmailDataset._get_body (re := Sample.regex) (uni := Sample.unicode)
            (cod := Sample.codec) msg = Some (lit "Lunch at noon?")) ∧
  (∃ r, EmailDataset.load (re := Sample.regex) (uni := Sample.unicode) (cod := Sample.codec)
          (pkg := SampleMail.email_pkg)
          [File "0002" (Some SampleMail.ham_file)] (Some "ham") = Some ([r], 0%nat)).
Proof.
  split; [reflexivity|]. split; [by eexists|by eexists].
Qed.

Section LoaderCcFacts.
Import EmailDataset BuildSpamassassin.
Context {re : Regex} {uni : Unicode} {cod : Codec} {pkg : EmailPkg}.

Lemma load_entry_cc label st e st' :
  load_entry label st e = Some st' ->
  Forall cc_of_message st.1 -> Forall cc_of_message st'.1.
Proof.
  destruct st as [rows skipped], e as [name data| |]; [|by intros [= <-]..].
  cbn [load_entry fst snd]. destruct (data ≫= parsebytes) as [msg|]; [|by intros [= <-]].
  destruct (get "Subject" [] msg) as [subj|]; cbn [mbind option_bind]; [|done].
  destruct (get "From" [] msg) as [sender|]; cbn [mbind option_bind]; [|done].
  destruct (get "To" [] msg) as [to|]; cbn [mbind option_bind]; [|done].
  destruct (get_all "Received" msg) as [recvd|]; cbn [mbind option_bind]; [|done].
  destruct (get_all "Cc" msg) as [cc_hdrs|] eqn:Hcc; cbn [mbind option_bind]; [|done].
  destruct (getaddresses cc_hdrs) as [addrs|] eqn:Haddrs; cbn [mbind option_bind]; [|done].
  destruct (cc_fields (snd <$> addrs)) as [num_cc cc_txt] eqn:Hf.
  destruct (_get_body msg) as [content|]; [|by intros [= <-]].
  destruct (negb _); intros [= <-]; [done|]. intros Hrows. cbn [fst].
  apply Forall_app. split; [done|]. repeat constructor.
  exists msg, cc_hdrs, addrs. by rewrite Hf.
Qed.

Lemma load_rows_cc entries label rows skipped :
  load entries label = Some (rows, skipped) -> Forall cc_of_message rows.
Proof.
  unfold load. assert (Forall cc_of_message (@nil EmailRecord, 0%nat).1) as Hst by constructor.
  revert Hst. generalize (@nil EmailRecord, 0%nat).
  induction entries as [|e entries IH]; intros st Hst; cbn [load_loop].
  - by intros [= ->].
  - destruct (load_entry label st e) as [st1|] eqn:E; [|done]. cbn [mbind option_bind].
    apply IH. by eapply load_entry_cc.
Qed.

(** The round trip for the rows of [load], when [getaddresses] returns only
    addresses that are empty or counted once. *)
Lemma load_num_cc_roundtrip entries label rows skipped :
  (∀ hs addrs, getaddresses hs = Some addrs ->
     Forall (fun a => a ≠ [] -> counted_once a) (snd <$> addrs)) ->
  load entries label = Some (rows, skipped) ->
  Forall (fun r => EmailFeatureClass.count_cc (cc r) = num_cc r) rows.
Proof.
  intros Hget Hl. eapply Forall_impl; [by eapply load_rows_cc|].
  intros r (msg & hs & addrs & _ & Ha & Hr). specialize (Hget hs addrs Ha).
  apply count_cc_cc_fields in Hget. rewrite <-Hr in Hget. exact Hget.
Qed.

(** Sub-directories are not entered: [load] sees the regular files that are
    direct children only. *)
Lemma load_direct_children entries label :
  load entries label = load (List.filter is_file entries) label.
Proof.
  unfold load. generalize (@nil EmailRecord, 0%nat).
  induction entries as [|e entries IH]; intros st; [done|].
  cbn [List.filter]. destruct (is_file e) eqn:He; cbn [load_loop].
  - destruct (load_entry label st e); [apply IH|done].
  - rewrite load_entry_other by done. apply IH.
Qed.

Lemma below_dir prefix n cs : below prefix (Dir n cs) = rglob (prefix ++ [n]) cs.
Proof. reflexivity. Qed.

Lemma rglob_inside f e :
  inside f e -> ∀ prefix folder, e ∈ folder -> ∃ p, (p, f) ∈ rglob prefix folder.
Proof.
  induction 1 as [|n cs x Hx _ IH]; intros prefix folder He.
  - exists (prefix ++ [entry_name f]). unfold rglob, listed.
    apply elem_of_app. left. apply list_elem_of_fmap. by exists f.
  - destruct (IH (prefix ++ [n]) cs Hx) as [p Hp]. exists p. unfold rglob.
    apply elem_of_app. right. apply list_elem_of_In, in_flat_map.
    exists (Dir n cs). split; [by apply list_elem_of_In|].
    apply list_elem_of_In. by rewrite below_dir.
Qed.

(** The stand-alone builder enumerates the regular files at every depth. *)
Lemma iter_email_files_recursive folder e f :
  e ∈ folder -> inside f e -> is_file f = true ->
  ∃ p, (p, f) ∈ iter_email_files folder.
Proof.
  intros He Hin Hf. destruct (rglob_inside f e Hin [] folder He) as [p Hp].
  exists p. unfold iter_email_files.
  apply list_elem_of_In, filter_In. split; [by apply list_elem_of_In|done].
Qed.

(** C4, at a regular file inside a sub-directory: [load] returns no row and
    counts no skip for it, whatever its bytes are, although
    [iter_email_files] of the stand-alone builder yields it. *)
Theorem load_misses_nested_file (raw : list N) :
  load [Dir "cur" [File "00001" (Some raw)]] (Some "spam") = Some ([], 0%nat) ∧
  iter_email_files [Dir "cur" [File "00001" (Some raw)]]
    = [(["cur"; "00001"], File "00001" (Some raw))].
Proof. split; reflexivity. Qed.

End LoaderCcFacts.

(** ** Message parser *)

Section ParserFacts.
Import EmailDataset BuildSpamassassin.
Context {re : Regex} {uni : Unicode} {cod : Codec} {pkg : EmailPkg}.

Lemma is_content_type_true ct p : is_content_type ct p = true <-> get_content_type p = ct.
Proof. unfold is_content_type. apply bool_decide_eq_true. Qed.


Lemma walk_single msg : is_multipart msg = false -> walk msg = [msg].
Proof. destruct msg; done. Qed.

(** Whenever the message has a text/plain part, the body is the decoded
    text of the first one in the order of the walk. *)
Lemma select_body_plain msg p :
  p ∈ walk msg -> get_content_type p = "text/plain" ->
  ∃ q, q ∈ walk msg ∧ get_content_type q = "text/plain" ∧ select_body msg = Plain q.
Proof.
  intros Hp Hct. unfold select_body.
  destruct (is_multipart msg) eqn:Hm.
  - destruct (List.find (is_content_type "text/plain") (walk msg)) as [q|] eqn:Hf.
    + apply find_some in Hf as [Hq Hq']. exists q.
      split; [by apply list_elem_of_In|]. split; [by apply is_content_type_true|done].
    + eapply find_none in Hf; [|apply list_elem_of_In, Hp].
      apply is_content_type_true in Hct. congruence.
  - rewrite walk_single in Hp by done. apply list_elem_of_singleton in Hp as ->.
    exists msg. apply is_content_type_true in Hct as Hb. rewrite Hb.
    split; [rewrite walk_single by done; by apply list_elem_of_singleton|done].
Qed.

(** The HTML branch is taken only when the message has no text/plain part. *)
Lemma select_body_html msg h :
  select_body msg = Html h ->
  get_content_type h = "text/html" ∧ ∀ p, p ∈ walk msg -> get_content_type p ≠ "text/plain".
Proof.
  intros Hs. split.
  - unfold select_body in Hs. destruct (is_multipart msg).
    + destruct (List.find (is_content_type "text/plain") (walk msg)); [done|].
      destruct (List.find (is_content_type "text/html") (walk msg)) as [q|] eqn:Hf; [|done].
      apply find_some in Hf as [_ Hq]. apply is_content_type_true in Hq. congruence.
    + destruct (is_content_type "text/plain" msg); [done|].
      destruct (is_content_type "text/html" msg) eqn:Hq; [|done].
      apply is_content_type_true in Hq. congruence.
  - intros p Hp Hct. destruct (select_body_plain msg p Hp Hct) as (q & _ & _ & Hq).
    congruence.
Qed.


End ParserFacts.

Example get_body_alternative :
  EmailDataset._get_body (re := Sample.regex) (uni := Sample.unicode)
    (cod := Sample.codec) Examples.alternative = Some (lit "hello").
Proof. reflexivity. Qed.

Section BodySelectionFacts.
Import EmailDataset BuildSpamassassin Examples.

(** C1, at a multipart message whose first part is a text/plain attachment
    and at one with two text/plain parts: [_get_body] returns the text of
    the attachment, and the text of the first part alone. *)
Theorem get_body_first_plain_only {re : Regex} :
  _get_body (uni := Sample.unicode) (cod := Sample.codec) with_attachment
    = Some (lit "NOTES") ∧
  _get_body (uni := Sample.unicode) (cod := Sample.codec) two_plain
    = Some (lit "hello").
Proof. split; reflexivity. Qed.

Context {cod : Codec} {pkg : EmailPkg}.


Lemma lstrip_nil s : lstrip s = [] <-> forallb isspace s = true.
Proof.
  induction s as [|c s IH]; simpl; [done|].
  destruct (isspace c); simpl; [done|]. split; done.
Qed.

Lemma rstrip_nil s : rstrip s = [] <-> forallb isspace s = true.
Proof.
  induction s as [|c s IH]; simpl; [done|].
  destruct (rstrip s) eqn:Hr.
  - destruct (isspace c); simpl; [|split; done].
    split; [intros _; by apply IH|done].
  - split; [done|]. intros Hb. apply andb_prop in Hb as [_ Hb].
    apply IH in Hb. done.
Qed.

Lemma forallb_lstrip s : forallb isspace (lstrip s) = forallb isspace s.
Proof.
  induction s as [|c s IH]; simpl; [done|].
  destruct (isspace c) eqn:Hc; simpl; [done|]. by rewrite Hc.
Qed.







(** The fallback loop does not look at the disposition: the text of an
    attachment is the body when nothing else gave one. *)
Lemma extract_body_only_attachment :
  extract_body only_attachment =
    Text match get_text_content attached_notes with Some s => strip s | None => [] end.
Proof.
  change (extract_body only_attachment)
    with (Text match get_text_content attached_notes with
               | Some s => match strip s with [] => [] | body => body end
               | None => []
               end).
  destruct (get_text_content attached_notes) as [s|]; [|done].
  by destruct (strip s).
Qed.

End BodySelectionFacts.

(** ** The two parsers on a message with a text/plain and a text/html part *)

Section BothParsers.
Import EmailDataset BuildSpamassassin.
Context {re : Regex} {uni : Unicode} {cod : Codec} {pkg : EmailPkg}.




End BothParsers.



(** ** Feature engine and assembler *)

Section Hoare.

Lemma hoare_bind {A B} (P : world -> Prop) (m : M A) (k : A -> M B)
    (Q1 : exn + A -> world -> Prop) (Q : exn + B -> world -> Prop) :
  hoare P m Q1 ->
  (∀ e w, Q1 (inl e) w -> Q (inl e) w) ->
  (∀ a, hoare (Q1 (inr a)) (k a) Q) ->
  hoare P (m ≫= k) Q.
Proof.
  intros Hm He Hk w Hw. specialize (Hm w Hw).
  unfold mbind, M_bind. destruct (m w) as [[e|a] w']; simpl in *.
  - by apply He.
  - by apply Hk.
Qed.

Lemma columns_setitem c v d c' :
  c' ∈ columns (setitem c v d) <-> c' = c ∨ c' ∈ columns d.
Proof.
  unfold columns. induction d as [|[n x] d IH]; simpl.
  - rewrite list_elem_of_singleton. split; [by left|]. intros [|Hn]; [done|].
    by apply elem_of_nil in Hn.
  - case_bool_decide as Hn; simpl; rewrite !elem_of_cons.
    + subst. tauto.
    + rewrite IH. tauto.
Qed.

Lemma getitem_is_Some c d : c ∈ columns d <-> is_Some (getitem c d).
Proof.
  unfold columns. induction d as [|[n x] d IH]; simpl.
  - split; [intros Hn; by apply elem_of_nil in Hn|by intros [? ?]].
  - rewrite elem_of_cons. case_bool_decide as Hn.
    + split; [eauto|]. intros _. by left.
    + rewrite <-IH. split; [|by right]. intros [->|]; done.
Qed.

End Hoare.

Section FeatureFacts.
Import EmailFeatureClass.
Context {re : Regex}.
Variables (I : DataFrame -> Prop) (w0 : world) (df : loc).

Local Abbreviation J := (stays I w0 df).

Lemma hoare_quiet_bind {A B} (m : M A) (k : A -> M B) (R : exn + B -> world -> Prop) :
  hoare J m (quiet I w0 df) ->
  (∀ e w, quiet (A := A) I w0 df (inl e) w -> R (inl e) w) ->
  (∀ a, hoare J (k a) R) ->
  hoare J (m ≫= k) R.
Proof.
  intros Hm He Hk. eapply hoare_bind; [exact Hm|exact He|].
  intros a w [Hw _]. by apply Hk.
Qed.

Lemma quiet_inl {A B} e w :
  quiet (A := A) I w0 df (inl e) w -> quiet (A := B) I w0 df (inl e) w.
Proof. intros [Hw He]. split; [done|]. intros msg l [= ->]. by eapply He. Qed.

Lemma hoare_columns : hoare J (df_columns df) (quiet I w0 df).
Proof.
  intros w (d & Hw & Hg). pose proof Hw as (Hd & _).
  unfold df_columns, deref, mbind, M_bind. rewrite Hd. simpl.
  split; [by exists d|done].
Qed.

Lemma hoare_getitem c : hoare J (df_getitem df c) (quiet I w0 df).
Proof.
  intros w (d & Hw & Hg). pose proof Hw as (Hd & _).
  unfold df_getitem, deref, mbind, M_bind. rewrite Hd.
  destruct (getitem c d); simpl; (split; [by exists d|done]).
Qed.

Lemma hoare_lift {A} (r : exn + A) :
  (∀ msg l, r ≠ inl (ValueError msg l)) -> hoare J (lift r) (quiet I w0 df).
Proof. intros Hr w Hw. by split. Qed.

Lemma hoare_setitem c v :
  (∀ d, I d -> I (setitem c v d)) -> hoare J (df_setitem df c v) (quiet I w0 df).
Proof.
  intros Hc w (d & (Hd & Hframe & Hdirs & Hfiles) & Hg).
  unfold df_setitem, deref, store, set_heap, mbind, M_bind. rewrite Hd.
  unfold quiet, stays, working. cbn [fst snd heap dirs files].
  split; [|done]. exists (setitem c v d). split; [|by apply Hc].
  split; [apply lookup_insert_eq|]. split; [|done].
  intros l x Hl Hx. rewrite lookup_insert_ne by done. by apply Hframe.
Qed.

Lemma hoare_when b (m : M unit) :
  hoare J m (quiet I w0 df) -> hoare J (when b m) (quiet I w0 df).
Proof. intros Hm. destruct b; [done|]. intros w Hw. by split. Qed.

(** The two blocks that derive a length column. *)
Lemma hoare_len_block b (src dst : string) :
  (∀ v d, I d -> I (setitem dst v d)) ->
  hoare J
    (when b (s ← df_getitem df src;
             v ← lift (str_len (fillna_empty s));
             df_setitem df dst v))
    (quiet I w0 df).
Proof.
  intros HI. apply hoare_when.
  eapply hoare_quiet_bind; [apply hoare_getitem|apply quiet_inl|intros s].
  eapply hoare_quiet_bind; [apply hoare_lift|apply quiet_inl|intros v].
  - intros msg l. by destruct (fillna_empty s).
  - apply hoare_setitem, HI.
Qed.

End FeatureFacts.

Section FinishFacts.
Import EmailFeatureClass.
Variables (self : t) (w0 : world) (df : loc) (d0 : DataFrame).

Lemma grown_setitem c v d : c ∈ derived -> grown d0 d -> grown d0 (setitem c v d).
Proof.
  intros Hc Hg c' Hc'. apply columns_setitem in Hc' as [->|Hc']; [by right|by apply Hg].
Qed.

Lemma apply_count_cc_quiet s msg l : apply_count_cc s ≠ inl (ValueError msg l).
Proof. by destruct s as [|[|]]. Qed.

(** The final check of the columns and the copy that is returned. *)
Lemma hoare_finish :
  hoare (stays (grown d0) w0 df)
    (cs ← df_columns df;
     match List.filter (not_in cs) (cols self) with
     | [] => df_copy df
     | missing => raise (ValueError "Missing expected columns: " missing)
     end)
    (call_post self w0 df d0).
Proof.
  intros w (d & (Hd & Hframe & Hdirs & Hfiles) & Hg).
  unfold df_columns, df_copy, deref, alloc, raise, set_heap, mbind, M_bind, mret, M_ret.
  rewrite Hd. unfold call_post, working. cbn [fst snd heap dirs files].
  destruct (List.filter (not_in (columns d)) (cols self)) as [|c missing] eqn:Hmiss.
  - rewrite Hd. cbn [fst snd heap dirs files]. exists d.
    pose proof (is_fresh (dom (heap w))) as Hfresh.
    rewrite not_elem_of_dom in Hfresh.
    assert (fresh (dom (heap w)) ≠ df) as Hne by congruence.
    split; [|split; [done|]].
    + split; [by rewrite lookup_insert_ne|]. split; [|done].
      intros l x Hl Hx. specialize (Hframe l x Hl Hx).
      rewrite lookup_insert_ne; [done|congruence].
    + split; [|split; [done|split; [apply lookup_insert_eq|done]]].
      destruct (heap w0 !! fresh (dom (heap w))) as [x|] eqn:Hx; [|done].
      specialize (Hframe _ x Hne Hx). congruence.
  - exists d. split; [done|]. split; [done|]. by rewrite Hmiss.
Qed.

End FinishFacts.

Section EngineFacts.
Import EmailFeatureClass BuildProcessed.
Context {re : Regex}.

Lemma hoare_post {A} (P : world -> Prop) (m : M A) (Q Q' : exn + A -> world -> Prop) :
  hoare P m Q -> (∀ res w, Q res w -> Q' res w) -> hoare P m Q'.
Proof. intros Hm HQ w Hw. apply HQ, Hm, Hw. Qed.

Lemma hoare_weaken {A} (P P' : world -> Prop) (m : M A) Q :
  (∀ w, P w -> P' w) -> hoare P' m Q -> hoare P m Q.
Proof. intros HP Hm w Hw. apply Hm, HP, Hw. Qed.

Lemma quiet_call_post {A} self w0 df d0 e w :
  quiet (A := A) (grown d0) w0 df (inl e) w -> call_post self w0 df d0 (inl e) w.
Proof.
  intros [(d & Hw & Hg) He]. exists d. split; [done|]. split; [done|].
  destruct e; try done. by destruct (He message missing).
Qed.

(** The copy that [__call__] starts with. *)
Lemma hoare_first_copy (I : DataFrame -> Prop) w0 r d0 :
  heap w0 !! r = Some d0 -> I d0 ->
  hoare (fun w => w = w0) (df_copy r)
    (fun res w => res = inr (fresh (dom (heap w0))) ∧ stays I w0 (fresh (dom (heap w0))) w).
Proof.
  intros Hr HI w ->. unfold df_copy, deref, alloc, set_heap, mbind, M_bind.
  rewrite Hr. cbn [fst snd]. split; [done|]. exists d0. split; [|done].
  unfold working. cbn [heap dirs files]. split; [apply lookup_insert_eq|].
  split; [|done]. intros l v Hl Hv. by rewrite lookup_insert_ne.
Qed.

(** What [__call__] returns and leaves, for a live input table. *)
Lemma call_hoare self w0 r d0 :
  heap w0 !! r = Some d0 ->
  call_post self w0 (fresh (dom (heap w0))) d0 (call self r w0).1 (call self r w0).2.
Proof.
  intros Hr. set (df := fresh (dom (heap w0))).
  cut (hoare (fun w => w = w0) (call self r) (call_post self w0 df d0)).
  { intros Hh. by apply Hh. }
  unfold call.
  eapply hoare_bind;
    [apply (hoare_first_copy (grown d0) w0 r d0); [done|by intros c Hc; left]| |].
  { by intros e w [? _]. }
  intros a. destruct (decide (a = df)) as [->|Hne]; [|intros w [[=] _]; done].
  apply hoare_weaken with (P' := stays (grown d0) w0 df); [by intros w [_ ?]|].
  eapply (hoare_quiet_bind (grown d0)); [apply hoare_columns|apply quiet_call_post|intros cs1].
  eapply (hoare_quiet_bind (grown d0)); [|apply quiet_call_post|intros _].
  { apply hoare_len_block. intros v d Hd. apply grown_setitem; [by_decide|exact Hd]. }
  eapply (hoare_quiet_bind (grown d0)); [apply hoare_columns|apply quiet_call_post|intros cs2].
  eapply (hoare_quiet_bind (grown d0)); [|apply quiet_call_post|intros _].
  { apply hoare_len_block. intros v d Hd. apply grown_setitem; [by_decide|exact Hd]. }
  eapply (hoare_quiet_bind (grown d0)); [apply hoare_columns|apply quiet_call_post|intros cs3].
  eapply (hoare_quiet_bind (grown d0)); [|apply quiet_call_post|intros _].
  { apply hoare_when.
    eapply (hoare_quiet_bind (grown d0)); [apply hoare_getitem|apply quiet_inl|intros subj].
    eapply (hoare_quiet_bind (grown d0)); [apply hoare_getitem|apply quiet_inl|intros cont].
    apply hoare_setitem. intros d Hd. apply grown_setitem; [by_decide|exact Hd]. }
  eapply (hoare_quiet_bind (grown d0)); [apply hoare_columns|apply quiet_call_post|intros cs4].
  eapply (hoare_quiet_bind (grown d0)); [|apply quiet_call_post|intros _].
  { apply hoare_when.
    eapply (hoare_quiet_bind (grown d0)); [apply hoare_getitem|apply quiet_inl|intros s].
    eapply (hoare_quiet_bind (grown d0)); [apply hoare_lift, apply_count_cc_quiet|apply quiet_inl|intros v].
    apply hoare_setitem. intros d Hd. apply grown_setitem; [by_decide|exact Hd]. }
  apply hoare_finish.
Qed.

(** C10. [__call__] works on a copy: after the call, whether it returned or
    raised, the table it was given has the columns and values it had
    before, and so has every other table; a returned table is a new object,
    distinct from the input. *)
Theorem call_leaves_input (self : t) (w : world) (r : loc) (d : DataFrame) :
  heap w !! r = Some d ->
  heap (call self r w).2 !! r = Some d ∧
  (∀ l v, heap w !! l = Some v -> heap (call self r w).2 !! l = Some v) ∧
  (∀ r', (call self r w).1 = inr r' ->
     r' ≠ r ∧ heap w !! r' = None ∧ is_Some (heap (call self r w).2 !! r')).
Proof.
  intros Hr. pose proof (call_hoare self w r d Hr) as (d' & Hw & _ & Hres).
  destruct Hw as (_ & Hframe & _).
  assert (heap w !! fresh (dom (heap w)) = None) as Hdf by apply not_elem_of_dom, is_fresh.
  assert (∀ l v, heap w !! l = Some v -> heap (call self r w).2 !! l = Some v) as Hall.
  { intros l v Hl. apply Hframe; [congruence|done]. }
  split; [by apply Hall|]. split; [done|].
  intros r' Hr'. rewrite Hr' in Hres. destruct Hres as (Hnew & _ & Hd' & _).
  split; [congruence|]. split; [done|]. by exists d'.
Qed.

End EngineFacts.

Lemma call_leaves_input_witness :
  let w := Tables.one_table Tables.no_hops in
  let run := EmailFeatureClass.call (re := Sample.regex) EmailFeatureClass.default 1%positive w in
  heap run.2 !! 1%positive = Some Tables.no_hops ∧
  (∀ l v, heap w !! l = Some v -> heap run.2 !! l = Some v) ∧
  (∀ r', run.1 = inr r' ->
     r' ≠ 1%positive ∧ heap w !! r' = None ∧ is_Some (heap run.2 !! r')).
Proof.
  apply (call_leaves_input (re := Sample.regex) EmailFeatureClass.default
           (Tables.one_table Tables.no_hops) 1%positive Tables.no_hops).
  reflexivity.
Defined.

Section AssemblerFacts.
Import EmailFeatureClass BuildProcessed.
Context {re : Regex}.

Lemma missing_named (cs names : list string) (c : string) :
  c ∈ names -> c ∉ cs -> c ∈ List.filter (not_in cs) names.
Proof.
  intros Hc Hn. apply list_elem_of_In, filter_In.
  split; [by apply list_elem_of_In|].
  unfold not_in. by rewrite bool_decide_eq_false_2.
Qed.

(** The check of the assembler, on a table without [num_hops]. *)
Lemma assemble_missing_hops (w : world) (r : loc) (d : DataFrame) (out : path) :
  heap w !! r = Some d -> "num_hops" ∉ columns d ->
  ∃ missing,
    assemble r out w =
      (inl (ValueError "load_data() did not return expected columns: missing=" missing), w)
    ∧ "num_hops" ∈ missing.
Proof.
  intros Hr Hn.
  assert ("num_hops" ∈ List.filter (not_in (columns d)) keep) as Hin.
  { apply missing_named; [by_decide|done]. }
  exists (List.filter (not_in (columns d)) keep). split; [|done].
  unfold assemble, df_columns, deref, mbind, M_bind. rewrite Hr. cbn [mret M_ret].
  destruct (List.filter (not_in (columns d)) keep) as [|c l]; [|done].
  by apply elem_of_nil in Hin.
Qed.

(** The feature engine in front of the assembler raises on such a table,
    and when it reports missing columns, [num_hops] is among them. *)
Lemma call_missing_hops (w : world) (r : loc) (d : DataFrame) :
  heap w !! r = Some d -> "num_hops" ∉ columns d ->
  ∃ e, (call default r w).1 = inl e ∧
       dirs (call default r w).2 = dirs w ∧ files (call default r w).2 = files w ∧
       ∀ msg missing, e = ValueError msg missing -> "num_hops" ∈ missing.
Proof.
  intros Hr Hn.
  pose proof (call_hoare default w r d Hr) as (d' & Hw & Hg & Hres).
  destruct Hw as (_ & _ & Hdirs & Hfiles).
  assert ("num_hops" ∉ columns d') as Hn'.
  { intros Hc. apply Hg in Hc as [Hc|Hc]; [done|]. revert Hc. by_decide. }
  assert ("num_hops" ∈ List.filter (not_in (columns d')) (cols default)) as Hin.
  { apply missing_named; [by_decide|done]. }
  destruct (call default r w).1 as [e|r'].
  - exists e. repeat split; try done.
    intros msg missing ->. by destruct Hres as [-> _].
  - destruct Hres as (_ & _ & _ & Hnil). rewrite Hnil in Hin.
    by apply elem_of_nil in Hin.
Qed.

(** C7. Given a table without a [num_hops] column, the assembler raises the
    error that lists the missing columns, [num_hops] among them, and leaves
    the world as it was: no directory is created and no file is written.
    [main] from the feature engine on fails on such a table too, before any
    directory is created or file written, and an error that lists missing
    columns lists [num_hops]. *)
Theorem assemble_requires_num_hops (w : world) (r : loc) (d : DataFrame) (out : path) :
  heap w !! r = Some d -> "num_hops" ∉ columns d ->
  (∃ missing,
     assemble r out w =
       (inl (ValueError "load_data() did not return expected columns: missing=" missing), w)
     ∧ "num_hops" ∈ missing) ∧
  (∃ e, (main_from r out w).1 = inl e ∧
        dirs (main_from r out w).2 = dirs w ∧ files (main_from r out w).2 = files w ∧
        ∀ msg missing, e = ValueError msg missing -> "num_hops" ∈ missing).
Proof.
  intros Hr Hn. split; [by eapply assemble_missing_hops|].
  destruct (call_missing_hops w r d Hr Hn) as (e & He & Hdirs & Hfiles & Hmiss).
  exists e. unfold main_from, mbind, M_bind.
  destruct (call default r w) as [[e'|r'] w']; simpl in *; [|done].
  injection He as ->. done.
Qed.

Lemma no_link_source_setitem c v d :
  c ∈ ["subject_len"; "content_len"] ->
  no_link_source d -> no_link_source (setitem c v d).
Proof.
  intros Hc [Hl Hs]. unfold no_link_source. rewrite !columns_setitem.
  apply elem_of_cons in Hc as [->|Hc];
    [|apply list_elem_of_singleton in Hc as ->]; split; intuition discriminate.
Qed.

(** The block that derives [has_link] raises [KeyError] on a table that has
    no such column and lacks a text column. *)
Lemma hoare_has_link_block w0 df (rest : M loc) :
  hoare (stays no_link_source w0 df)
    (cs ← df_columns df;
     when (not_in cs "has_link")
       (subj ← df_getitem df (subject_col default);
        cont ← df_getitem df (content_col default);
        df_setitem df "has_link"
          (has_link_col (astype_str (fillna_empty subj)) (astype_str (fillna_empty cont))));;
     rest)
    (fun res _ => res = inl (KeyError "subject") ∨ res = inl (KeyError "content")).
Proof.
  intros w (d & (Hd & _) & [Hl Hs]).
  unfold df_columns, df_getitem, deref, mbind, M_bind. rewrite Hd. cbn [mret M_ret].
  unfold not_in. rewrite bool_decide_eq_false_2 by done.
  cbn [negb when subject_col content_col default]. rewrite Hd.
  destruct (getitem "subject" d) as [subj|] eqn:Hsubj; [|by left].
  cbn [mret M_ret]. rewrite Hd.
  destruct (getitem "content" d) as [cont|] eqn:Hcont; [|by right].
  destruct Hs as [Hs|Hs]; exfalso; apply Hs, getitem_is_Some; eauto.
Qed.

(** For every table from which [has_link] cannot be derived, [__call__]
    raises, and what it raises is not the error that lists the missing
    columns. *)
Lemma call_never_lists_missing (w : world) (r : loc) (d : DataFrame) :
  heap w !! r = Some d -> no_link_source d ->
  ∃ e, (call default r w).1 = inl e ∧ ∀ msg l, e ≠ ValueError msg l.
Proof.
  intros Hr Hd. set (df := fresh (dom (heap w))).
  set (R := fun (res : exn + loc) (_ : world) =>
              ∃ e, res = inl e ∧ ∀ msg l, e ≠ ValueError msg l).
  assert (∀ A e w', quiet (A := A) no_link_source w df (inl e) w' -> R (inl e) w') as HR.
  { intros A e w' [_ He]. exists e. split; [done|]. intros msg l ->. by eapply He. }
  cut (hoare (fun w' => w' = w) (call default r) R).
  { intros Hh. by apply Hh. }
  unfold call.
  eapply hoare_bind; [apply (hoare_first_copy no_link_source w r d); done| |].
  { by intros e w' [? _]. }
  intros a. destruct (decide (a = df)) as [->|Hne]; [|intros w' [[=] _]; done].
  apply hoare_weaken with (P' := stays no_link_source w df); [by intros w' [_ ?]|].
  eapply (hoare_quiet_bind no_link_source); [apply hoare_columns|apply HR|intros cs1].
  eapply (hoare_quiet_bind no_link_source); [|apply HR|intros _].
  { apply hoare_len_block. intros v d' Hd'. apply no_link_source_setitem; [by_decide|done]. }
  eapply (hoare_quiet_bind no_link_source); [apply hoare_columns|apply HR|intros cs2].
  eapply (hoare_quiet_bind no_link_source); [|apply HR|intros _].
  { apply hoare_len_block. intros v d' Hd'. apply no_link_source_setitem; [by_decide|done]. }
  eapply hoare_post; [apply hoare_has_link_block|].
  intros res w' [->| ->]; eexists; (split; [done|]); done.
Qed.

(** C6, at a table without a [subject] column and at one without a
    [content] column: [__call__] raises [KeyError] for that column when it
    derives [has_link], and never reaches the check that lists the missing
    columns. *)
Theorem call_key_error_without_text_column :
  (call default 1%positive (Tables.one_table Tables.no_subject)).1
    = inl (KeyError "subject") ∧
  (call default 1%positive (Tables.one_table Tables.no_content)).1
    = inl (KeyError "content").
Proof. split; vm_compute; reflexivity. Qed.

End AssemblerFacts.

Lemma assemble_requires_num_hops_witness :
  let w := Tables.one_table Tables.no_hops in
  (∃ missing,
     BuildProcessed.assemble 1%positive Tables.out_path w =
       (inl (ValueError "load_data() did not return expected columns: missing=" missing), w)
     ∧ "num_hops" ∈ missing) ∧
  (∃ e, (BuildProcessed.main_from (re := Sample.regex) 1%positive Tables.out_path w).1 = inl e ∧
        dirs (BuildProcessed.main_from (re := Sample.regex) 1%positive Tables.out_path w).2 = dirs w ∧
        files (BuildProcessed.main_from (re := Sample.regex) 1%positive Tables.out_path w).2 = files w ∧
        ∀ msg missing, e = ValueError msg missing -> "num_hops" ∈ missing).
Proof.
  apply (assemble_requires_num_hops (re := Sample.regex)
           (Tables.one_table Tables.no_hops) 1%positive Tables.no_hops Tables.out_path).
  - reflexivity.
  - by_decide.
Defined.

(** * Further properties of the code *)

Example sample_parse :
  parsebytes (EmailPkg := SampleMail.email_pkg) SampleMail.ham_file
  = Some (Single [("Subject", lit "Hi")] "text/plain" None None (lit "Lunch at noon?")).
Proof. reflexivity. Qed.

Example sample_main_rows :
  Builder.main_rows (uni := Sample.unicode) (cod := Sample.codec)
    (pkg := SampleMail.email_pkg) SampleMail.corpus 0
  = inr [ {| Builder.subject := lit "Hi"; Builder.body := Text (lit "Lunch at noon?"); Builder.label := 0 |};
          {| Builder.subject := lit "Hi"; Builder.body := Text (lit "Lunch at noon?"); Builder.label := 0 |};
          {| Builder.subject := lit "Win now"; Builder.body := Text (lit "Click http://evil.example/x");
             Builder.label := 1 |} ].
Proof. reflexivity. Qed.

(** ** Trimming *)

Section TrimFacts.

Section By.
Variable p : char -> bool.

Lemma lstrip_by_rstrip_by_fixed s :
  lstrip_by p s = s -> lstrip_by p (rstrip_by p s) = rstrip_by p s.
Proof.
  destruct s as [|c s]; [done|]. simpl.
  destruct (p c) eqn:Hc.
  - intros E. exfalso.
    assert (length (lstrip_by p s) ≤ length s)%nat as Hle.
    { clear. induction s as [|d s IH]; simpl; [lia|]. destruct (p d); simpl; lia. }
    rewrite E in Hle. simpl in Hle. lia.
  - intros _. destruct (rstrip_by p s); simpl; by rewrite Hc.
Qed.

Lemma lstrip_by_idem s : lstrip_by p (lstrip_by p s) = lstrip_by p s.
Proof.
  induction s as [|c s IH]; [done|]. simpl.
  destruct (p c) eqn:Hc; [done|]. simpl. by rewrite Hc.
Qed.

Lemma rstrip_by_idem s : rstrip_by p (rstrip_by p s) = rstrip_by p s.
Proof.
  induction s as [|c s IH]; [done|]. simpl.
  destruct (rstrip_by p s) as [|d r] eqn:Hr.
  - destruct (p c) eqn:Hc; [done|]. simpl. by rewrite Hc.
  - change (rstrip_by p (c :: d :: r)) with
      (match rstrip_by p (d :: r) with [] => if p c then [] else [c] | r' => c :: r' end).
    by rewrite IH.
Qed.

Lemma strip_by_idem s : strip_by p (strip_by p s) = strip_by p s.
Proof.
  unfold strip_by. rewrite lstrip_by_rstrip_by_fixed by apply lstrip_by_idem.
  apply rstrip_by_idem.
Qed.

End By.

Lemma lstrip_rstrip_fixed s : lstrip s = s -> lstrip (rstrip s) = rstrip s.
Proof. exact (lstrip_by_rstrip_by_fixed isspace s). Qed.

Lemma lstrip_lstrip s : lstrip (lstrip s) = lstrip s.
Proof. exact (lstrip_by_idem isspace s). Qed.

Lemma rstrip_rstrip s : rstrip (rstrip s) = rstrip s.
Proof. exact (rstrip_by_idem isspace s). Qed.

Lemma strip_strip s : strip (strip s) = strip s.
Proof. exact (strip_by_idem isspace s). Qed.

Lemma bstrip_bstrip b : bstrip (bstrip b) = bstrip b.
Proof. apply strip_by_idem. Qed.

Lemma content_strip_idem c : content_strip (content_strip c) = content_strip c.
Proof. destruct c; simpl; by rewrite ?strip_strip, ?bstrip_bstrip. Qed.

End TrimFacts.

(** ** The stand-alone builder *)

Section BuilderFacts.
Import BuildSpamassassin Builder.
Context {uni : Unicode} {cod : Codec} {pkg : EmailPkg}.

Lemma fallback_text_trimmed ps : strip (fallback_text ps) = fallback_text ps.
Proof.
  induction ps as [|p ps IH]; [done|]. simpl.
  destruct (String.prefix _ _); [|done].
  destruct (get_text_content p) as [s|]; [|done].
  destruct (strip s) as [|c body] eqn:E; [done|]. rewrite <-E. apply strip_strip.
Qed.

Lemma extract_body_strip (msg : Message) :
  content_strip (extract_body msg) = extract_body msg.
Proof.
  unfold extract_body. destruct (is_multipart msg).
  - cbn [content_strip]. f_equal.
    destruct (joined_plain msg) as [|c body] eqn:E; [apply fallback_text_trimmed|].
    rewrite <-E. unfold joined_plain. apply strip_strip.
  - destruct (get_content msg) as [[s|b]|].
    + cbn [content_strip]. by rewrite strip_strip.
    + destruct b as [|c b]; [done|]. cbn [content_strip]. by rewrite bstrip_bstrip.
    + destruct msg; [|done]. cbn [content_strip]. by rewrite strip_strip.
Qed.

(** X1. The body that [extract_text_from_email] computes for a parsed
    message is unchanged by its own [strip()], whichever branch produced
    it: a text body has no whitespace at either end, and a body of bytes
    has no ASCII whitespace at either end.  The body of a multipart message
    is always text; bytes arise only from a single part that is not text. *)
Theorem extract_body_trimmed (msg : Message) :
  content_strip (extract_body msg) = extract_body msg ∧
  (is_multipart msg = true -> ∃ s, extract_body msg = Text s) ∧
  (∀ b, extract_body msg = Bytes b ->
        String.prefix "text/" (get_content_type msg) = false ∧ bstrip b = b).
Proof.
  split; [apply extract_body_strip|]. split.
  - intros Hm. unfold extract_body. rewrite Hm. by eexists.
  - intros b Hb. pose proof (extract_body_strip msg) as Hs. rewrite Hb in Hs.
    split; [|by injection Hs]. unfold extract_body, get_content in Hb.
    destruct (is_multipart msg); [done|].
    destruct (String.prefix "text/" (get_content_type msg)); [|done].
    destruct (get_text_content msg); [done|]. by destruct msg.
Qed.

(** The rows of one folder: at most the cap minus the rows counted so far. *)
Lemma collect_rows_length max_per_class label n files :
  max_per_class ≠ 0%Z ->
  (Z.of_nat (length (collect_rows max_per_class label n files))
   ≤ Z.max 0 (max_per_class - n))%Z.
Proof.
  intros Hmax. revert n. induction files as [|f files IH]; intros n; simpl; [lia|].
  destruct (max_per_class =? 0)%Z eqn:E0; [lia|]. simpl.
  destruct (max_per_class <=? n)%Z eqn:En; [simpl; lia|].
  apply Z.leb_gt in En.
  destruct (read_bytes f.2 ≫= extract_text_from_email) as [[subject body]|];
    [|specialize (IH n); lia].
  destruct (_ || _); [|specialize (IH n); lia].
  specialize (IH (n + 1)%Z). simpl length. lia.
Qed.

Lemma collect_rows_good max_per_class l n files :
  Forall (good_row l) (collect_rows max_per_class l n files).
Proof.
  revert n. induction files as [|f files IH]; intros n; simpl; [constructor|].
  destruct (_ && _); [constructor|].
  destruct (read_bytes f.2 ≫= extract_text_from_email) as [[subject body]|] eqn:E; [|done].
  destruct (EmailDataset.nonempty (strip subject) || content_nonempty (content_strip body)) eqn:Hb;
    [|done].
  constructor; [|done]. split; [done|]. simpl.
  assert (content_strip body = body) as Hbody.
  { destruct (read_bytes f.2) as [raw|]; [|done]. simpl in E.
    unfold extract_text_from_email in E.
    destruct (parsebytes raw) as [msg|]; cbn [mbind option_bind] in E; [|done].
    destruct (get "subject" [] msg); cbn [mbind option_bind] in E; [|done].
    injection E as _ <-. apply extract_body_strip. }
  split; [done|]. rewrite Hbody in Hb.
  destruct (strip subject); [by right|by left].
Qed.

Lemma filter_label_all l rows :
  Forall (good_row l) rows -> List.filter (fun r => (label r =? l)%Z) rows = rows.
Proof.
  induction 1 as [|r rows [Hl _] _ IH]; [done|]. simpl.
  rewrite Hl, Z.eqb_refl. by f_equal.
Qed.

Lemma filter_label_none l l' rows :
  l ≠ l' -> Forall (good_row l) rows -> List.filter (fun r => (label r =? l')%Z) rows = [].
Proof.
  intros Hne. induction 1 as [|r rows [Hl _] _ IH]; [done|]. simpl.
  rewrite Hl. by destruct (Z.eqb_spec l l').
Qed.

(** X2. With a cap that is not 0, [main] writes at most that many rows of
    each label; a negative cap leaves no row at all. *)
Theorem main_rows_cap (root : list DirEntry) (max_per_class : Z) (rows : list Row) :
  max_per_class ≠ 0%Z ->
  main_rows root max_per_class = inr rows ->
  (length (List.filter (fun r => (label r =? 0)%Z) rows) ≤ Z.to_nat max_per_class)%nat ∧
  (length (List.filter (fun r => (label r =? 1)%Z) rows) ≤ Z.to_nat max_per_class)%nat.
Proof.
  intros Hmax. unfold main_rows.
  destruct (find_dir_case_insensitive root "SPAM") as [spam|]; [|done].
  destruct (find_dir_case_insensitive root "EASY_HAM") as [ham|]; [|done].
  intros [= <-]. rewrite !List.filter_app, !length_app.
  pose proof (collect_rows_good max_per_class 0 0 (iter_email_files (children ham))) as Hh.
  pose proof (collect_rows_good max_per_class 1 0 (iter_email_files (children spam))) as Hs.
  rewrite (filter_label_all 0), (filter_label_none 1 0), (filter_label_none 0 1),
    (filter_label_all 1) by done.
  pose proof (collect_rows_length max_per_class 0 0 (iter_email_files (children ham)) Hmax).
  pose proof (collect_rows_length max_per_class 1 0 (iter_email_files (children spam)) Hmax).
  simpl. lia.
Qed.

(** X3. Every row that [main] writes has label 0 or 1, a body that its own
    [strip()] leaves unchanged (text without whitespace, or bytes without
    ASCII whitespace, at either end), and a subject that is not blank or a
    body that is not empty. *)
Theorem main_rows_good (root : list DirEntry) (max_per_class : Z) :
  match main_rows root max_per_class with
  | inr rows =>
      Forall (fun r => (label r = 0%Z ∨ label r = 1%Z) ∧
                       content_strip (body r) = body r ∧
                       (strip (subject r) ≠ [] ∨ content_nonempty (body r) = true)) rows
  | inl _ => True
  end.
Proof.
  unfold main_rows.
  destruct (find_dir_case_insensitive root "SPAM") as [spam|]; [|done].
  destruct (find_dir_case_insensitive root "EASY_HAM") as [ham|]; [|done].
  apply Forall_app. split.
  - eapply Forall_impl; [apply collect_rows_good|]. intros r (Hl & Hb & Hn). eauto.
  - eapply Forall_impl; [apply collect_rows_good|]. intros r (Hl & Hb & Hn). eauto.
Qed.

Lemma find_dir_none root name :
  find_dir_case_insensitive root name = None <->
  ∀ p, p ∈ root -> is_dir p = true -> same_name name p = false.
Proof.
  unfold find_dir_case_insensitive. split.
  - intros Hf p Hp Hd. eapply find_none in Hf; [|apply list_elem_of_In, Hp].
    simpl in Hf. by rewrite Hd in Hf.
  - intros Hall. destruct (List.find _ root) as [p|] eqn:Hf; [|done].
    apply find_some in Hf as [Hp Hb]. apply andb_prop in Hb as [Hd Hn].
    apply list_elem_of_In in Hp. rewrite (Hall p Hp Hd) in Hn. done.
Qed.

(** X4. [main] reports the spam folder as missing exactly when no directory
    directly in the root has that name in any casing, wherever else such a
    directory may lie; it reports the ham folder as missing exactly when the
    spam folder was found and the ham folder was not. *)
Theorem main_rows_not_found (root : list DirEntry) (max_per_class : Z) :
  (main_rows root max_per_class = inl SpamNotFound <->
   ∀ p, p ∈ root -> is_dir p = true -> same_name "SPAM" p = false) ∧
  (main_rows root max_per_class = inl HamNotFound <->
   find_dir_case_insensitive root "SPAM" ≠ None ∧
   ∀ p, p ∈ root -> is_dir p = true -> same_name "EASY_HAM" p = false).
Proof.
  rewrite <-!find_dir_none. unfold main_rows.
  destruct (find_dir_case_insensitive root "SPAM") as [spam|];
    destruct (find_dir_case_insensitive root "EASY_HAM") as [ham|];
    split; split; try done; by intros [? ?].
Qed.

End BuilderFacts.

Lemma main_rows_cap_witness :
  let rows :=
    [ {| Builder.subject := lit "Hi"; Builder.body := Text (lit "Lunch at noon?"); Builder.label := 0 |};
      {| Builder.subject := lit "Win now"; Builder.body := Text (lit "Click http://evil.example/x");
         Builder.label := 1 |} ] in
  (length (List.filter (fun r => (Builder.label r =? 0)%Z) rows) ≤ Z.to_nat 1)%nat ∧
  (length (List.filter (fun r => (Builder.label r =? 1)%Z) rows) ≤ Z.to_nat 1)%nat.
Proof.
  apply (main_rows_cap (uni := Sample.unicode) (cod := Sample.codec)
           (pkg := SampleMail.email_pkg) SampleMail.corpus 1).
  - discriminate.
  - reflexivity.
Defined.

(** ** Enumeration of the files *)

Section EnumerationFacts.
Import BuildSpamassassin Builder.

Lemma DirEntry_nested_ind (P : DirEntry -> Prop) :
  (∀ n d, P (File n d)) ->
  (∀ n, P (Other n)) ->
  (∀ n cs, Forall P cs -> P (Dir n cs)) ->
  ∀ e, P e.
Proof.
  intros Hf Ho Hd. fix IH 1. intros [n d|n cs|n]; [apply Hf| |apply Ho].
  apply Hd. induction cs as [|c cs IHcs]; constructor; [apply IH|exact IHcs].
Qed.

Lemma below_sound e :
  ∀ prefix y, y ∈ below prefix e ->
    inside y.2 e ∧ (length prefix + 2 ≤ length y.1)%nat.
Proof.
  induction e as [n d|n|n cs IH] using DirEntry_nested_ind; intros prefix y Hy;
    [by apply elem_of_nil in Hy..|].
  rewrite below_dir in Hy. unfold rglob, listed in Hy. apply elem_of_app in Hy as [Hy|Hy].
  - apply list_elem_of_fmap in Hy as (c & -> & Hc). split.
    + eapply inside_below; [exact Hc|constructor].
    + cbn [fst]. rewrite !length_app. simpl. lia.
  - apply list_elem_of_In, in_flat_map in Hy as (x & Hx & Hy).
    apply list_elem_of_In in Hx, Hy. rewrite Forall_forall in IH.
    destruct (IH x Hx _ _ Hy) as [Hin Hlen]. split; [by eapply inside_below|].
    rewrite length_app in Hlen. simpl in Hlen. lia.
Qed.

(** X5. [iter_email_files] yields exactly the regular files that lie in the
    folder at any depth: every entry it yields is a regular file inside an
    entry of the folder, and every such file is yielded. *)
Theorem iter_email_files_exact (folder : list DirEntry) (f : DirEntry) :
  (∃ p, (p, f) ∈ iter_email_files folder) <->
  is_file f = true ∧ ∃ e, e ∈ folder ∧ inside f e.
Proof.
  split.
  - intros (p & Hp). apply list_elem_of_In, filter_In in Hp as [Hp Hf].
    split; [done|]. apply list_elem_of_In in Hp. unfold rglob, listed in Hp.
    apply elem_of_app in Hp as [Hp|Hp].
    + apply list_elem_of_fmap in Hp as (c & [= _ ->] & Hc). exists c. split; [done|constructor].
    + apply list_elem_of_In, in_flat_map in Hp as (e & He & Hp).
      exists e. split; [by apply list_elem_of_In|].
      apply list_elem_of_In in Hp. by apply below_sound in Hp as [Hin _].
  - intros (Hf & e & He & Hin). by eapply iter_email_files_recursive.
Qed.

Lemma filter_none {A} (p : A -> bool) (l : list A) :
  (∀ x, x ∈ l -> p x = false) -> List.filter p l = [].
Proof.
  induction l as [|a l IH]; intros Hall; [done|]. simpl.
  rewrite (Hall a) by by left. apply IH. intros x Hx. apply Hall. by right.
Qed.

Lemma below_top_files prefix folder :
  List.filter (fun pe => (length pe.1 =? S (length prefix))%nat)
    (List.filter (fun pe => is_file pe.2) (flat_map (below prefix) folder)) = [].
Proof.
  apply filter_none. intros y Hy.
  apply list_elem_of_In, filter_In in Hy as [Hy _].
  apply in_flat_map in Hy as (e & _ & Hy). apply list_elem_of_In in Hy.
  apply below_sound in Hy as [_ Hlen]. apply Nat.eqb_neq. lia.
Qed.

Lemma listed_top_files prefix folder :
  snd <$> List.filter (fun pe => (length pe.1 =? S (length prefix))%nat)
            (List.filter (fun pe => is_file pe.2) (listed prefix folder))
  = List.filter is_file folder.
Proof.
  unfold listed. induction folder as [|e folder IH]; [done|].
  rewrite fmap_cons. cbn [List.filter snd]. destruct (is_file e); [|done].
  cbn [List.filter fst]. rewrite length_app, Nat.add_1_r, Nat.eqb_refl.
  rewrite fmap_cons. by rewrite IH.
Qed.

(** X6. The regular files directly in a folder, which are the ones
    [EmailDataset.load] reads, are the entries of depth one that
    [iter_email_files] yields, in the same order. *)
Theorem top_level_files (folder : list DirEntry) :
  snd <$> List.filter (fun pe => (length pe.1 =? 1)%nat) (iter_email_files folder)
  = List.filter is_file folder.
Proof.
  unfold iter_email_files, rglob. rewrite !List.filter_app.
  pose proof (below_top_files [] folder) as Hdeep.
  pose proof (listed_top_files [] folder) as Htop. cbn [length] in Hdeep, Htop.
  rewrite Hdeep, app_nil_r. exact Htop.
Qed.

End EnumerationFacts.

(** ** The loader of the pipeline, file by file *)

Section LoaderRows.
Import EmailDataset.
Context {re : Regex} {uni : Unicode} {cod : Codec} {pkg : EmailPkg}.

(** One step of the loop, by what the entry gives. *)
Lemma load_entry_row label rows skipped e :
  load_entry label (rows, skipped) e =
  match entry_row label e with
  | None => None
  | Some o => Some (rows ++ option_list o,
                    (skipped + if skips label e then 1 else 0)%nat)
  end.
Proof.
  unfold skips. destruct e as [name data| |];
    cbn [load_entry entry_row is_file andb option_list];
    rewrite ?app_nil_r, ?Nat.add_0_r; try done.
  destruct (data ≫= parsebytes) as [msg|];
    [|by cbn [option_list]; rewrite app_nil_r, Nat.add_1_r].
  destruct (get "Subject" [] msg) as [subj|]; cbn [mbind option_bind]; [|done].
  destruct (get "From" [] msg) as [sender|]; cbn [mbind option_bind]; [|done].
  destruct (get "To" [] msg) as [to|]; cbn [mbind option_bind]; [|done].
  destruct (get_all "Received" msg) as [recvd|]; cbn [mbind option_bind]; [|done].
  destruct (get_all "Cc" msg) as [cc_hdrs|]; cbn [mbind option_bind]; [|done].
  destruct (getaddresses cc_hdrs) as [addrs|]; cbn [mbind option_bind]; [|done].
  destruct (cc_fields (snd <$> addrs)) as [num_cc cc_txt]. cbn [fst snd].
  destruct (_get_body msg) as [content|]; cbn [mbind option_bind option_list];
    [|by rewrite app_nil_r, Nat.add_1_r].
  destruct (nonempty _ || nonempty content || nonempty _); cbn [negb option_list].
  - by rewrite Nat.add_0_r.
  - by rewrite app_nil_r, Nat.add_1_r.
Qed.

Lemma load_loop_rows label entries rows skipped :
  load_loop label (rows, skipped) entries =
  outs ← mapM (entry_row label) entries;
  Some (rows ++ omap id outs,
        (skipped + length (List.filter (skips label) entries))%nat).
Proof.
  revert rows skipped. induction entries as [|e entries IH]; intros rows skipped.
  - cbn. by rewrite app_nil_r, Nat.add_0_r.
  - cbn [load_loop mapM List.filter]. rewrite load_entry_row.
    destruct (entry_row label e) as [o|]; cbn [mbind option_bind]; [|done].
    rewrite IH. destruct (mapM (entry_row label) entries) as [outs|];
      cbn [mbind option_bind mret option_ret omap list_omap]; [|done].
    f_equal. f_equal.
    + rewrite <-app_assoc. f_equal. by destruct o.
    + destruct (skips label e); simpl; lia.
Qed.

Lemma load_as_mapM (entries : list DirEntry) (label : option string) :
  load entries label =
  outs ← mapM (entry_row label) entries;
  Some (omap id outs, length (List.filter (skips label) entries)).
Proof. unfold load. by rewrite load_loop_rows. Qed.

(** X7. [load] works file by file.  When reading the headers of some file
    raises, [load] raises; otherwise its rows are the rows that the single
    entries give, in the order of the listing, and its skip count is the
    number of regular files that gave no row.  Apart from an exception,
    what one file contributes does not depend on the other files. *)
Theorem load_file_by_file (entries : list DirEntry) (label : option string) :
  load entries label =
  outs ← mapM (entry_row label) entries;
  Some (omap id outs, length (List.filter (skips label) entries)).
Proof. apply load_as_mapM. Qed.

Lemma load_loop_from label entries st :
  load_loop label st entries = then_load (Some st) (load entries label).
Proof.
  destruct st as [rows skipped]. unfold load. rewrite !load_loop_rows.
  destruct (mapM (entry_row label) entries) as [outs|]; by cbn.
Qed.

Lemma load_loop_app label es1 es2 st :
  load_loop label st (es1 ++ es2) = st' ← load_loop label st es1; load_loop label st' es2.
Proof.
  revert st. induction es1 as [|e es1 IH]; intros st; [done|].
  cbn [app load_loop]. destruct (load_entry label st e); cbn [mbind option_bind]; [apply IH|done].
Qed.

(** X8. Loading a listing in two pieces: when both loads return, the load
    of the whole listing returns the rows of the first piece followed by
    those of the second, and the sum of the skip counts; when one of them
    raises, the load of the whole listing raises. *)
Theorem load_app (es1 es2 : list DirEntry) (label : option string) :
  load (es1 ++ es2) label = then_load (load es1 label) (load es2 label).
Proof.
  unfold load at 1. rewrite load_loop_app. fold (load es1 label).
  destruct (load es1 label) as [[r1 s1]|]; cbn [mbind option_bind]; [|done].
  apply load_loop_from.
Qed.

Lemma entry_row_fields label e r :
  entry_row label e = Some (Some r) ->
  EmailDataset.label r = label ∧ file r = entry_name e ∧ is_file e = true ∧
  (subject r ≠ [] ∨ content r ≠ [] ∨ sender r ≠ []) ∧
  ∃ msg recvd,
    get_all "Received" msg = Some recvd ∧ num_hops r = length recvd ∧
    get "Subject" [] msg = Some (subject r) ∧ get "From" [] msg = Some (sender r) ∧
    get "To" [] msg = Some (recipient r) ∧ _get_body msg = Some (content r).
Proof.
  destruct e as [name data| |]; [|done..]. cbn [entry_row].
  destruct (data ≫= parsebytes) as [msg|]; [|done].
  destruct (get "Subject" [] msg) as [subj|] eqn:Hs; cbn [mbind option_bind]; [|done].
  destruct (get "From" [] msg) as [sender|] eqn:Hf; cbn [mbind option_bind]; [|done].
  destruct (get "To" [] msg) as [to|] eqn:Ht; cbn [mbind option_bind]; [|done].
  destruct (get_all "Received" msg) as [recvd|] eqn:Hr; cbn [mbind option_bind]; [|done].
  destruct (get_all "Cc" msg) as [cc_hdrs|]; cbn [mbind option_bind]; [|done].
  destruct (getaddresses cc_hdrs) as [addrs|]; cbn [mbind option_bind]; [|done].
  destruct (_get_body msg) as [body|] eqn:Hb; cbn [mbind option_bind]; [|done].
  destruct (nonempty _ || nonempty body || nonempty _) eqn:Hn; [|done].
  intros [= <-]. cbn. repeat split; try done; [|by exists msg, recvd].
  destruct subj; [|by left]. destruct body; [|right; by left].
  destruct sender; [done|]. right. by right.
Qed.

Lemma load_rows_entry entries label rows skipped r :
  load entries label = Some (rows, skipped) -> r ∈ rows ->
  ∃ e, e ∈ entries ∧ entry_row label e = Some (Some r).
Proof.
  rewrite load_as_mapM.
  destruct (mapM (entry_row label) entries) as [outs|] eqn:Hm; [|done].
  cbn [mbind option_bind]. intros [= <- _] Hr.
  apply list_elem_of_omap in Hr as (o & Ho & Heq). cbn [id] in Heq. subst o.
  apply mapM_Some_1 in Hm. clear -Hm Ho.
  induction Hm as [|e o entries outs He _ IH]; [by apply elem_of_nil in Ho|].
  apply elem_of_cons in Ho as [->|Ho].
  - exists e. split; [by left|done].
  - destruct (IH Ho) as (e' & He' & Hrow). exists e'. split; [by right|done].
Qed.

Lemma load_rows_label (entries : list DirEntry) (label : option string) rows skipped :
  load entries label = Some (rows, skipped) ->
  Forall (fun r => EmailDataset.label r = label) rows.
Proof.
  intros Hl. apply Forall_forall. intros r Hr.
  destruct (load_rows_entry _ _ _ _ _ Hl Hr) as (e & _ & Hrow).
  by apply entry_row_fields in Hrow as (? & _).
Qed.

(** X9. Every row that [load] returns carries the label of the load and the
    name of a regular file of the listing, has a subject, a content or a
    sender that is not empty, and counts in [num_hops] the Received headers
    of the message from which its subject, sender, recipient and body were
    read. *)
Theorem load_rows_invariant (entries : list DirEntry) (label : option string)
    (rows : list EmailRecord) (skipped : nat) :
  load entries label = Some (rows, skipped) ->
  Forall (fun r =>
    EmailDataset.label r = label ∧
    (∃ e, e ∈ entries ∧ is_file e = true ∧ file r = entry_name e) ∧
    (subject r ≠ [] ∨ content r ≠ [] ∨ sender r ≠ []) ∧
    ∃ msg recvd,
      get_all "Received" msg = Some recvd ∧ num_hops r = length recvd ∧
      get "Subject" [] msg = Some (subject r) ∧ get "From" [] msg = Some (sender r) ∧
      get "To" [] msg = Some (recipient r) ∧ _get_body msg = Some (content r))
    rows.
Proof.
  intros Hl. apply Forall_forall. intros r Hr.
  destruct (load_rows_entry _ _ _ _ _ Hl Hr) as (e & He & Hrow).
  apply entry_row_fields in Hrow as (Hlab & Hf & Hfile & Hne & Hmsg).
  repeat split; try done. by exists e.
Qed.

Lemma fmap_replicate_label (l : option string) (rows : list EmailRecord) :
  Forall (fun r => EmailDataset.label r = l) rows ->
  EmailDataset.label <$> rows = replicate (length rows) l.
Proof. induction 1 as [|r rows Hr _ IH]; [done|]. by rewrite fmap_cons, IH, Hr. Qed.

(** X10. [load_data] raises when one of the two loads raises.  Otherwise it
    returns the rows of the spam directory followed by the rows of the ham
    directory, each part in its own order, the first ones labelled spam and
    the others ham. *)
Theorem load_data_labels (spam_dir ham_dir : list DirEntry) :
  match load spam_dir (Some "spam"), load ham_dir (Some "ham") with
  | Some (spam, _), Some (ham, _) =>
      load_data spam_dir ham_dir = Some (spam ++ ham) ∧
      EmailDataset.label <$> spam ++ ham
      = replicate (length spam) (Some "spam") ++ replicate (length ham) (Some "ham")
  | _, _ => load_data spam_dir ham_dir = None
  end.
Proof.
  unfold load_data.
  destruct (load spam_dir (Some "spam")) as [[spam s1]|] eqn:Hs; cbn [mbind option_bind];
    [|done].
  destruct (load ham_dir (Some "ham")) as [[ham s2]|] eqn:Hh; cbn [mbind option_bind];
    [|done].
  split; [done|]. rewrite fmap_app.
  f_equal; apply fmap_replicate_label; by eapply load_rows_label.
Qed.

End LoaderRows.

Lemma load_rows_invariant_witness :
  let entries := [File "0002" (Some SampleMail.ham_file); Dir "old" []] in
  let row :=
    {| EmailDataset.file := "0002"; EmailDataset.sender := []; EmailDataset.recipient := [];
       EmailDataset.cc := []; EmailDataset.num_cc := 0;
       EmailDataset.subject := lit "Hi"; EmailDataset.content := lit "Lunch at noon?";
       EmailDataset.num_hops := 0; EmailDataset.label := Some "ham" |} in
  Forall (fun r =>
    EmailDataset.label r = Some "ham" ∧
    (∃ e, e ∈ entries ∧ is_file e = true ∧ EmailDataset.file r = entry_name e) ∧
    (EmailDataset.subject r ≠ [] ∨ EmailDataset.content r ≠ [] ∨ EmailDataset.sender r ≠ []) ∧
    ∃ msg recvd,
      get_all (pkg := SampleMail.email_pkg) "Received" msg = Some recvd ∧
      EmailDataset.num_hops r = length recvd ∧
      get (pkg := SampleMail.email_pkg) "Subject" [] msg = Some (EmailDataset.subject r) ∧
      get (pkg := SampleMail.email_pkg) "From" [] msg = Some (EmailDataset.sender r) ∧
      get (pkg := SampleMail.email_pkg) "To" [] msg = Some (EmailDataset.recipient r) ∧
      EmailDataset._get_body (re := Sample.regex) (uni := Sample.unicode)
        (cod := Sample.codec) msg = Some (EmailDataset.content r))
    [row].
Proof.
  apply (load_rows_invariant (re := Sample.regex) (uni := Sample.unicode)
           (cod := Sample.codec) (pkg := SampleMail.email_pkg)
           [File "0002" (Some SampleMail.ham_file); Dir "old" []] (Some "ham") _ 0%nat).
  reflexivity.
Defined.

(** ** Body extraction never fails on parsed messages *)

Section BodyTotal.
Import EmailDataset.
Context {re : Regex} {uni : Unicode} {cod : Codec}.




End BodyTotal.


(** ** More on the text normaliser *)

Section NormaliserMore.
Import TextPreprocessor.

Lemma visible_sub_ws_runs b s : visible (sub_ws_runs b s) = visible s.
Proof.
  revert b. unfold visible. induction s as [|c s IH]; intros b; [done|]. simpl.
  destruct (isspace c) eqn:Hc; simpl.
  - destruct b; simpl; by rewrite IH.
  - by rewrite Hc, IH.
Qed.

Lemma visible_lstrip s : visible (lstrip s) = visible s.
Proof.
  unfold visible. induction s as [|c s IH]; [done|]. simpl.
  destruct (isspace c) eqn:Hc; simpl; [done|]. by rewrite Hc.
Qed.

Lemma visible_rstrip s : visible (rstrip s) = visible s.
Proof.
  unfold visible. induction s as [|c s IH]; [done|]. simpl.
  destruct (rstrip s) as [|d r] eqn:Hr.
  - rewrite <-IH. destruct (isspace c) eqn:Hc; simpl; [done|]. by rewrite Hc.
  - rewrite <-IH. simpl. done.
Qed.

Lemma spaces_sub_ws_runs b s :
  Forall (fun c => isspace c = true -> c = SP) (sub_ws_runs b s).
Proof.
  revert b. induction s as [|c s IH]; intros b; simpl; [constructor|].
  destruct (isspace c) eqn:Hc.
  - destruct b; [apply IH|]. constructor; [done|apply IH].
  - constructor; [congruence|apply IH].
Qed.

Lemma Forall_lstrip (P : char -> Prop) s : Forall P s -> Forall P (lstrip s).
Proof.
  induction 1 as [|c s Hc Hs IH]; simpl; [constructor|].
  destruct (isspace c); [done|by constructor].
Qed.

Lemma Forall_rstrip (P : char -> Prop) s : Forall P s -> Forall P (rstrip s).
Proof.
  induction 1 as [|c s Hc Hs IH]; simpl; [constructor|].
  destruct (rstrip s); [destruct (isspace c); repeat constructor; done|by constructor].
Qed.

Lemma forallb_sub_ws_runs b s :
  forallb isspace (sub_ws_runs b s) = forallb isspace s.
Proof.
  revert b. induction s as [|c s IH]; intros b; [done|]. simpl.
  destruct (isspace c) eqn:Hc; simpl.
  - destruct b; simpl; by rewrite IH.
  - by rewrite Hc.
Qed.

(** X12. Collapsing the whitespace keeps the characters that are not
    whitespace, all of them and in their order; the only whitespace left
    is the space character; and the result is empty exactly when the text
    holds nothing but whitespace. *)
Theorem collapse_keeps_text (s : str) :
  visible (collapse s) = visible s ∧
  Forall (fun c => isspace c = true -> c = SP) (collapse s) ∧
  (collapse s = [] <-> forallb isspace s = true).
Proof.
  unfold collapse, strip. split; [|split].
  - by rewrite visible_rstrip, visible_lstrip, visible_sub_ws_runs.
  - apply Forall_rstrip, Forall_lstrip, spaces_sub_ws_runs.
  - rewrite rstrip_nil, forallb_lstrip. by rewrite forallb_sub_ws_runs.
Qed.

(** X13. With [collapse_whitespace] on and [lemmatize] off, whatever the
    other steps are, the result of [__call__] is in collapsed form:
    collapsing or trimming it again changes nothing. *)
Theorem call_collapsed {re : Regex} {uni : Unicode} {nlp : Spacy}
    (cfg : PreprocessingCfg) (text : str) :
  enable cfg = true -> collapse_whitespace cfg = true -> lemmatize cfg = false ->
  collapse (call cfg text) = call cfg text ∧ strip (call cfg text) = call cfg text.
Proof.
  intros He Hc Hl. unfold call. rewrite He, Hc, Hl. cbn [negb step].
  generalize (step (remove_punctuation cfg) translate_punct
    (step (remove_digits cfg) (re_sub DIGIT_RE [SP])
      (step (lowercase cfg) lower
        (step (remove_hashtags cfg) (re_sub HASHTAG_RE [SP])
          (step (remove_user_handles cfg) (re_sub HANDLE_RE [SP])
            (step (remove_emails cfg) (re_sub EMAIL_RE [SP])
              (step (remove_urls cfg) (re_sub URL_RE [SP])
                (step (remove_html cfg) (re_sub HTML_TAG_RE [SP])
                  (html_unescape text))))))))).
  intros t. split.
  - rewrite !collapse_refines. apply collapse_spec_idempotent.
  - unfold collapse. apply strip_strip.
Qed.

(** X14. When the spaCy model cannot be loaded, the lemmatising step does
    nothing: [__call__] returns the same text with [lemmatize] on as with
    [lemmatize] off, for every language code. *)
Theorem call_without_model {re : Regex} {uni : Unicode} {nlp : Spacy}
    (cfg : PreprocessingCfg) (text : str) :
  spacy_load "en_core_web_sm" = None ->
  call (set_lemmatize true cfg) text = call (set_lemmatize false cfg) text.
Proof.
  intros Hload. unfold call. cbn [set_lemmatize enable remove_html remove_urls
    remove_emails remove_user_handles remove_hashtags lowercase remove_digits
    remove_punctuation collapse_whitespace lemmatize].
  destruct (negb (enable cfg)); [done|]. cbn [step].
  unfold _lemmatize. by destruct (bool_decide _); rewrite Hload.
Qed.

End NormaliserMore.

Lemma call_collapsed_witness :
  let out := TextPreprocessor.call (re := Sample.regex) (uni := Sample.unicode)
               (nlp := Sample.spacy) TextPreprocessor.default_cfg (lit "  Hello   world ") in
  TextPreprocessor.collapse out = out ∧ strip out = out.
Proof.
  apply (call_collapsed (re := Sample.regex) (uni := Sample.unicode)
           (nlp := Sample.spacy) TextPreprocessor.default_cfg); reflexivity.
Defined.

Lemma call_without_model_witness :
  TextPreprocessor.call (re := Sample.regex) (uni := Sample.unicode) (nlp := Sample.spacy)
    (set_lemmatize true TextPreprocessor.default_cfg) (lit "  Hello   world ")
  = TextPreprocessor.call (re := Sample.regex) (uni := Sample.unicode) (nlp := Sample.spacy)
    (set_lemmatize false TextPreprocessor.default_cfg) (lit "  Hello   world ").
Proof.
  apply (call_without_model (re := Sample.regex) (uni := Sample.unicode)
           (nlp := Sample.spacy) TextPreprocessor.default_cfg).
  reflexivity.
Defined.

(** ** The output directory of a model *)

Section ConfigFacts.
Import TrainConfig.

Lemma safe_name_no_slash name : (47%N : char) ∉ safe_name name.
Proof.
  unfold safe_name. induction name as [|c name IH]; simpl.
  - apply not_elem_of_nil.
  - apply not_elem_of_cons. split; [|done].
    destruct (N.eqb_spec c 47); [done|congruence].
Qed.

(** X15. The directory of a model is the base directory itself or one
    component below it, and that component holds no slash and is as long
    as the model name: a name such as org/model never gives nested
    directories. *)
Theorem get_output_dir_one_level (base : list str) (model_name : str) :
  get_output_dir base model_name = base ∨
  ∃ c, get_output_dir base model_name = base ++ [c] ∧
       ((47%N : char) ∉ c) ∧ length c = length model_name.
Proof.
  unfold get_output_dir. destruct (_ || _); [by left|]. right.
  exists (safe_name model_name). split; [done|]. split; [apply safe_name_no_slash|].
  unfold safe_name. by rewrite length_fmap.
Qed.

End ConfigFacts.

(** ** The feature engine computes a function of the input table *)

Section EngineRuns.
Import EmailFeatureClass Features.
Context {re : Regex}.

Lemma set_heap_same w df d :
  heap w !! df = Some d -> set_heap (insert df d) w = w.
Proof. intros Hd. destruct w as [h ds fs]. unfold set_heap. simpl in *. by rewrite insert_id. Qed.

Lemma set_heap_twice w df d d' :
  set_heap (insert df d') (set_heap (insert df d) w) = set_heap (insert df d') w.
Proof. unfold set_heap. simpl. by rewrite insert_insert_eq. Qed.

Lemma heap_set_heap w df d : heap (set_heap (insert df d) w) !! df = Some d.
Proof. apply lookup_insert_eq. Qed.

(** The world in which the copy at [df] holds [d]. *)
Local Abbreviation at_copy w df d := (set_heap (insert df d) w).

(** A block that derives a column from one source column, followed by the
    rest of the call. *)
Lemma run_add_from (f : series -> exn + column) dst src df (k : M loc) w d :
  (cs ← df_columns df;
   when (not_in cs dst && bool_decide (src ∈ cs))
     (s ← df_getitem df src; v ← lift (f (fillna_empty s)); df_setitem df dst v);;
   k) (at_copy w df d)
  = match add_from f dst src d with
    | inl e => (inl e, at_copy w df d)
    | inr d' => k (at_copy w df d')
    end.
Proof.
  unfold add_from, df_columns, df_getitem, df_setitem, deref, store, lift, mbind, M_bind.
  rewrite heap_set_heap. cbn [mret M_ret].
  destruct (not_in (columns d) dst && bool_decide (src ∈ columns d)); cbn [when]; [|done].
  rewrite heap_set_heap. destruct (getitem src d) as [s|]; cbn [mret M_ret raise]; [|done].
  destruct (f (fillna_empty s)) as [e|v]; cbn [bind]; [done|].
  rewrite heap_set_heap. by rewrite set_heap_twice.
Qed.

Lemma run_add_has_link self df (k : M loc) w d :
  (cs ← df_columns df;
   when (not_in cs "has_link")
     (subj ← df_getitem df (subject_col self);
      cont ← df_getitem df (content_col self);
      df_setitem df "has_link"
        (has_link_col (astype_str (fillna_empty subj)) (astype_str (fillna_empty cont))));;
   k) (at_copy w df d)
  = match add_has_link self d with
    | inl e => (inl e, at_copy w df d)
    | inr d' => k (at_copy w df d')
    end.
Proof.
  unfold add_has_link, df_columns, df_getitem, df_setitem, deref, store, mbind, M_bind.
  rewrite heap_set_heap. cbn [mret M_ret].
  destruct (not_in (columns d) "has_link"); cbn [when]; [|done].
  rewrite heap_set_heap.
  destruct (getitem (subject_col self) d) as [subj|]; cbn [mret M_ret raise]; [|done].
  rewrite heap_set_heap.
  destruct (getitem (content_col self) d) as [cont|]; cbn [mret M_ret raise]; [|done].
  rewrite heap_set_heap. by rewrite set_heap_twice.
Qed.

Lemma run_check self df w d :
  (cs ← df_columns df;
   match List.filter (not_in cs) (cols self) with
   | [] => df_copy df
   | missing => raise (ValueError "Missing expected columns: " missing)
   end) (at_copy w df d)
  = match check_cols self d with
    | inl e => (inl e, at_copy w df d)
    | inr d' =>
        (inr (fresh (dom (heap (at_copy w df d)))),
         set_heap (insert (fresh (dom (heap (at_copy w df d)))) d') (at_copy w df d))
    end.
Proof.
  unfold check_cols, df_columns, df_copy, deref, alloc, mbind, M_bind.
  rewrite heap_set_heap. cbn [mret M_ret].
  destruct (List.filter (not_in (columns d)) (cols self)); [|done].
  by rewrite heap_set_heap.
Qed.

(** [__call__] on a live table: the exception or the table that [features]
    gives for it, the table in a new object. *)
Lemma call_runs_features self w r d0 :
  heap w !! r = Some d0 ->
  match features self d0 with
  | inl e => (call self r w).1 = inl e
  | inr d => ∃ r', (call self r w).1 = inr r' ∧ heap (call self r w).2 !! r' = Some d
  end.
Proof.
  intros Hr. unfold call.
  assert (∀ k : loc -> M loc,
            (df_copy r ≫= k) w
            = k (fresh (dom (heap w))) (at_copy w (fresh (dom (heap w))) d0)) as ->.
  { intros k. unfold df_copy, deref, alloc, mbind, M_bind. by rewrite Hr. }
  set (df := fresh (dom (heap w))). unfold features.
  rewrite run_add_from.
  destruct (add_from str_len "subject_len" (subject_col self) d0) as [e|d1]; [done|].
  cbn [bind]. rewrite run_add_from.
  destruct (add_from str_len "content_len" (content_col self) d1) as [e|d2]; [done|].
  cbn [bind]. rewrite run_add_has_link.
  destruct (add_has_link self d2) as [e|d3]; [done|].
  cbn [bind]. rewrite run_add_from.
  destruct (add_from apply_count_cc "num_cc" "cc" d3) as [e|d4]; [done|].
  cbn [bind]. rewrite run_check.
  destruct (check_cols self d4) as [e|d5]; [done|].
  eexists. split; [done|]. cbn [snd]. apply heap_set_heap.
Qed.

(** X16. [__call__] computes a function of the table it is given: it
    raises the exception, or returns in a new object the table, that the
    column-by-column function [features] gives for that table, whatever
    else the world holds. *)
Theorem call_is_features (self : t) (w : world) (r : loc) (d0 : DataFrame) :
  heap w !! r = Some d0 ->
  match features self d0 with
  | inl e => (call self r w).1 = inl e
  | inr d => ∃ r', (call self r w).1 = inr r' ∧ heap (call self r w).2 !! r' = Some d
  end.
Proof. apply call_runs_features. Qed.

End EngineRuns.

Lemma call_is_features_witness :
  (EmailFeatureClass.call (re := Sample.regex) EmailFeatureClass.default 1%positive
     (Tables.one_table Tables.no_hops)).1
  = inl (ValueError "Missing expected columns: " ["num_hops"]).
Proof.
  exact (call_is_features (re := Sample.regex) EmailFeatureClass.default
           (Tables.one_table Tables.no_hops) 1%positive Tables.no_hops eq_refl).
Defined.

(** ** What the feature engine adds *)

Section EngineAdds.
Import EmailFeatureClass Features.
Context {re : Regex}.

Lemma columns_app (d e : DataFrame) : columns (d ++ e) = columns d ++ columns e.
Proof. unfold columns. apply fmap_app. Qed.

Lemma setitem_fresh c v d : c ∉ columns d -> setitem c v d = d ++ [(c, v)].
Proof.
  unfold columns. induction d as [|[n x] d IH]; simpl; [done|].
  intros Hc. apply not_elem_of_cons in Hc as [Hne Hc].
  rewrite bool_decide_eq_false_2 by done. by rewrite IH.
Qed.

Lemma getitem_app_l c d e v : getitem c d = Some v -> getitem c (d ++ e) = Some v.
Proof.
  induction d as [|[n x] d IH]; simpl; [done|].
  by destruct (bool_decide (n = c)).
Qed.

Lemma not_in_true cs c : not_in cs c = true <-> c ∉ cs.
Proof. unfold not_in. rewrite negb_true_iff. apply bool_decide_eq_false. Qed.

Lemma add_from_appends f dst src d d' :
  add_from f dst src d = inr d' -> appends dst d d'.
Proof.
  unfold add_from. destruct (not_in (columns d) dst) eqn:Hn; simpl; [|intros [= <-]; by left].
  destruct (bool_decide _); [|intros [= <-]; by left].
  destruct (getitem src d) as [s|]; [|done].
  destruct (f (fillna_empty s)) as [e|v]; [done|]. simpl. intros [= <-].
  apply not_in_true in Hn. right. split; [done|]. exists v. by apply setitem_fresh.
Qed.

Lemma add_has_link_appends self d d' :
  add_has_link self d = inr d' -> appends "has_link" d d'.
Proof.
  unfold add_has_link. destruct (not_in (columns d) "has_link") eqn:Hn; [|intros [= <-]; by left].
  destruct (getitem (subject_col self) d) as [s|]; [|done].
  destruct (getitem (content_col self) d) as [c|]; [|done]. intros [= <-].
  apply not_in_true in Hn. right. split; [done|]. eexists. by apply setitem_fresh.
Qed.

Lemma extends_step d0 d d' dst :
  dst ∈ derived -> extends d0 d -> appends dst d d' -> extends d0 d'.
Proof.
  intros Hdst (extra & -> & Hall) [->|(Hn & v & ->)]; [by exists extra|].
  exists (extra ++ [(dst, v)]). split; [by rewrite app_assoc|].
  apply Forall_app. split; [done|]. constructor; [|constructor].
  split; simpl; [done|].
  intros Hc. apply Hn. rewrite columns_app. apply elem_of_app. by left.
Qed.

Lemma check_cols_inr self d d' :
  check_cols self d = inr d' -> d' = d ∧ ∀ c, c ∈ cols self -> c ∈ columns d.
Proof.
  unfold check_cols. destruct (List.filter _ _) as [|m ms] eqn:Hf; [|done].
  intros [= <-]. split; [done|]. intros c Hc.
  destruct (decide (c ∈ columns d)) as [|Hn]; [done|]. exfalso.
  assert (c ∈ List.filter (not_in (columns d)) (cols self)) as Hin.
  { apply list_elem_of_In, filter_In. split; [by apply list_elem_of_In|by apply not_in_true]. }
  rewrite Hf in Hin. by apply elem_of_nil in Hin.
Qed.

Lemma features_extends self d0 d :
  features self d0 = inr d ->
  extends d0 d ∧ ∀ c, c ∈ cols self -> c ∈ columns d.
Proof.
  unfold features.
  destruct (add_from str_len "subject_len" (subject_col self) d0) as [|d1] eqn:E1;
    cbn [bind]; [done|].
  destruct (add_from str_len "content_len" (content_col self) d1) as [|d2] eqn:E2;
    cbn [bind]; [done|].
  destruct (add_has_link self d2) as [|d3] eqn:E3; cbn [bind]; [done|].
  destruct (add_from apply_count_cc "num_cc" "cc" d3) as [|d4] eqn:E4; cbn [bind]; [done|].
  intros Hc. apply check_cols_inr in Hc as [-> Hcols]. split; [|done].
  apply add_from_appends in E1, E2, E4. apply add_has_link_appends in E3.
  assert (extends d0 d0) as H0 by (exists []; by rewrite app_nil_r).
  eapply extends_step; [|eapply extends_step; [|eapply extends_step;
    [|eapply extends_step; [|exact H0|exact E1]|exact E2]|exact E3]|exact E4]; by_decide.
Qed.

(** X17. The feature engine only adds: the table it returns is the input
    table, with its columns and values in their order, followed by derived
    columns that the input lacked, and it holds every column of [cols]. *)
Theorem call_only_adds (self : t) (w : world) (r r' : loc) (d0 : DataFrame) :
  heap w !! r = Some d0 -> (call self r w).1 = inr r' ->
  ∃ extra, heap (call self r w).2 !! r' = Some (d0 ++ extra) ∧
           Forall (fun cv : string * column => cv.1 ∈ derived ∧ cv.1 ∉ columns d0) extra ∧
           ∀ c, c ∈ cols self -> c ∈ columns (d0 ++ extra).
Proof.
  intros Hr Hres. pose proof (call_runs_features self w r d0 Hr) as Hrun.
  destruct (features self d0) as [e|d] eqn:Hf; [congruence|].
  destruct Hrun as (r2 & Hr2 & Hd). assert (r2 = r') as -> by congruence.
  apply features_extends in Hf as [(extra & -> & Hall) Hcols]. by exists extra.
Qed.

Lemma add_from_present f dst src d :
  dst ∈ columns d -> add_from f dst src d = inr d.
Proof.
  intros Hc. unfold add_from, not_in. by rewrite bool_decide_eq_true_2.
Qed.

Lemma features_fixed d :
  (∀ c, c ∈ cols default -> c ∈ columns d) -> features default d = inr d.
Proof.
  intros Hcols. unfold features.
  rewrite add_from_present by (apply Hcols; by_decide). cbn [bind].
  rewrite add_from_present by (apply Hcols; by_decide). cbn [bind].
  unfold add_has_link, not_in at 1.
  rewrite bool_decide_eq_true_2 by (apply Hcols; by_decide). cbn [negb bind].
  rewrite add_from_present by (apply Hcols; by_decide). cbn [bind].
  unfold check_cols. rewrite filter_none; [done|].
  intros c Hc. unfold not_in. by rewrite bool_decide_eq_true_2 by by apply Hcols.
Qed.

(** X18. Running the engine on a table it returned changes nothing: the
    second call returns a copy that is equal to the table it was given. *)
Theorem call_twice (w : world) (r r1 : loc) (d0 : DataFrame) :
  heap w !! r = Some d0 -> (call default r w).1 = inr r1 ->
  ∃ d r2, heap (call default r w).2 !! r1 = Some d ∧
          (call default r1 (call default r w).2).1 = inr r2 ∧
          heap (call default r1 (call default r w).2).2 !! r2 = Some d.
Proof.
  intros Hr Hres. pose proof (call_runs_features default w r d0 Hr) as Hrun.
  destruct (features default d0) as [e|d] eqn:Hf; [congruence|].
  destruct Hrun as (r' & Hr' & Hd). assert (r' = r1) as -> by congruence.
  apply features_extends in Hf as [_ Hcols].
  pose proof (call_runs_features default _ r1 d Hd) as Hrun2.
  rewrite (features_fixed d Hcols) in Hrun2. destruct Hrun2 as (r2 & Hr2 & Hd2).
  by exists d, r2.
Qed.

End EngineAdds.

Lemma call_only_adds_witness :
  ∃ extra,
    heap (EmailFeatureClass.call (re := Sample.regex) EmailFeatureClass.default 1%positive
            Runs.world_of_loaded).2 !! 3%positive = Some (Runs.loaded ++ extra) ∧
    Forall (fun cv : string * column => cv.1 ∈ derived ∧ cv.1 ∉ columns Runs.loaded) extra ∧
    ∀ c, c ∈ EmailFeatureClass.cols EmailFeatureClass.default ->
         c ∈ columns (Runs.loaded ++ extra).
Proof.
  apply (call_only_adds (re := Sample.regex) EmailFeatureClass.default
           Runs.world_of_loaded 1%positive 3%positive Runs.loaded); reflexivity.
Defined.

Lemma call_twice_witness :
  ∃ d r2,
    heap (EmailFeatureClass.call (re := Sample.regex) EmailFeatureClass.default 1%positive
            Runs.world_of_loaded).2 !! 3%positive = Some d ∧
    (EmailFeatureClass.call (re := Sample.regex) EmailFeatureClass.default 3%positive
       (EmailFeatureClass.call (re := Sample.regex) EmailFeatureClass.default 1%positive
          Runs.world_of_loaded).2).1 = inr r2 ∧
    heap (EmailFeatureClass.call (re := Sample.regex) EmailFeatureClass.default 3%positive
            (EmailFeatureClass.call (re := Sample.regex) EmailFeatureClass.default 1%positive
               Runs.world_of_loaded).2).2 !! r2 = Some d.
Proof.
  apply (call_twice (re := Sample.regex) Runs.world_of_loaded 1%positive 3%positive
           Runs.loaded); reflexivity.
Defined.

(** ** The assembler on a complete feature table *)

Section AssemblerWrites.
Import BuildProcessed Pipeline.

Lemma keep_none_missing d :
  (∀ c, c ∈ keep -> c ∈ columns d) -> List.filter (not_in (columns d)) keep = [].
Proof.
  intros Hcols. apply filter_none. intros c Hc.
  unfold not_in. by rewrite bool_decide_eq_true_2 by by apply Hcols.
Qed.

Lemma getitem_Some c d : c ∈ columns d -> ∃ v, getitem c d = Some v.
Proof. intros Hc. by apply getitem_is_Some in Hc as [v Hv]; exists v. Qed.

(** The run of the assembler on a table that has every column to keep. *)
Lemma run_assemble (w : world) (r : loc) (d : DataFrame) (out : path) :
  heap w !! r = Some d -> (∀ c, c ∈ keep -> c ∈ columns d) ->
  assemble r out w =
  (inr (), {| heap := <[fresh (dom (heap w)) := assembled d]> (heap w);
              dirs := dirs w ∪ made_dirs out;
              files := <[out := assembled d]> (files w) |}).
Proof.
  intros Hr Hcols.
  destruct (getitem_Some "sender" d) as [v1 H1]; [apply Hcols; by_decide|].
  destruct (getitem_Some "recipient" d) as [v2 H2]; [apply Hcols; by_decide|].
  destruct (getitem_Some "num_cc" d) as [v3 H3]; [apply Hcols; by_decide|].
  destruct (getitem_Some "subject" d) as [v4 H4]; [apply Hcols; by_decide|].
  destruct (getitem_Some "content" d) as [v5 H5]; [apply Hcols; by_decide|].
  destruct (getitem_Some "subject_len" d) as [v6 H6]; [apply Hcols; by_decide|].
  destruct (getitem_Some "content_len" d) as [v7 H7]; [apply Hcols; by_decide|].
  destruct (getitem_Some "has_link" d) as [v8 H8]; [apply Hcols; by_decide|].
  destruct (getitem_Some "num_hops" d) as [v9 H9]; [apply Hcols; by_decide|].
  destruct (getitem_Some "label" d) as [v10 H10]; [apply Hcols; by_decide|].
  assert (project_cols keep d =
    [("sender", v1); ("recipient", v2); ("num_cc", v3); ("subject", v4); ("content", v5);
     ("subject_len", v6); ("content_len", v7); ("has_link", v8); ("num_hops", v9);
     ("label", v10)]) as Hp.
  { unfold project_cols, keep. cbn [omap list_omap].
    by rewrite H1, H2, H3, H4, H5, H6, H7, H8, H9, H10. }
  unfold assemble, df_columns, deref, mbind, M_bind. rewrite Hr. cbn [mret M_ret].
  rewrite keep_none_missing by done.
  unfold project, clean_text, to_csv, write_file, mkdir_parents, df_getitem, df_setitem,
    deref, alloc, store, set_heap, mbind, M_bind.
  cbn [heap dirs files fst snd]. rewrite Hr. cbn [heap dirs files fst snd].
  fold (project_cols keep d). unfold assembled, clean_col. rewrite Hp.
  repeat (first [rewrite lookup_insert_eq | rewrite insert_insert_eq]; simpl).
  reflexivity.
Qed.

End AssemblerWrites.

Section AssemblerTable.
Import BuildProcessed Pipeline.

Lemma assembled_explicit (d : DataFrame) :
  (∀ c, c ∈ keep -> c ∈ columns d) ->
  ∃ v1 v2 v3 v4 v5 v6 v7 v8 v9 v10,
    (getitem "sender" d = Some v1 ∧ getitem "recipient" d = Some v2 ∧
     getitem "num_cc" d = Some v3 ∧ getitem "subject" d = Some v4 ∧
     getitem "content" d = Some v5 ∧ getitem "subject_len" d = Some v6 ∧
     getitem "content_len" d = Some v7 ∧ getitem "has_link" d = Some v8 ∧
     getitem "num_hops" d = Some v9 ∧ getitem "label" d = Some v10) ∧
    assembled d =
      [("sender", v1); ("recipient", v2); ("num_cc", v3);
       ("subject", TextCol (Some <$> astype_str (fillna_empty v4)));
       ("content", TextCol (Some <$> astype_str (fillna_empty v5)));
       ("subject_len", v6); ("content_len", v7); ("has_link", v8); ("num_hops", v9);
       ("label", v10)].
Proof.
  intros Hcols.
  destruct (getitem_Some "sender" d) as [v1 H1]; [apply Hcols; by_decide|].
  destruct (getitem_Some "recipient" d) as [v2 H2]; [apply Hcols; by_decide|].
  destruct (getitem_Some "num_cc" d) as [v3 H3]; [apply Hcols; by_decide|].
  destruct (getitem_Some "subject" d) as [v4 H4]; [apply Hcols; by_decide|].
  destruct (getitem_Some "content" d) as [v5 H5]; [apply Hcols; by_decide|].
  destruct (getitem_Some "subject_len" d) as [v6 H6]; [apply Hcols; by_decide|].
  destruct (getitem_Some "content_len" d) as [v7 H7]; [apply Hcols; by_decide|].
  destruct (getitem_Some "has_link" d) as [v8 H8]; [apply Hcols; by_decide|].
  destruct (getitem_Some "num_hops" d) as [v9 H9]; [apply Hcols; by_decide|].
  destruct (getitem_Some "label" d) as [v10 H10]; [apply Hcols; by_decide|].
  exists v1, v2, v3, v4, v5, v6, v7, v8, v9, v10. split; [done|].
  unfold assembled, clean_col, project_cols, keep. cbn [omap list_omap].
  rewrite H1, H2, H3, H4, H5, H6, H7, H8, H9, H10. reflexivity.
Qed.

(** X19. On a feature table that has every column to keep, the assembler
    returns without error, creates the directories above the output path,
    and writes at that path, and nowhere else, a table with exactly the ten
    columns in their fixed order: subject and content without missing
    values, the other columns as they were.  No table of the heap changes. *)
Theorem assemble_writes (w : world) (r : loc) (d : DataFrame) (out : path) :
  heap w !! r = Some d -> (∀ c, c ∈ keep -> c ∈ columns d) ->
  (assemble r out w).1 = inr () ∧
  files (assemble r out w).2 = <[out := assembled d]> (files w) ∧
  dirs (assemble r out w).2 = dirs w ∪ made_dirs out ∧
  (∀ l v, heap w !! l = Some v -> heap (assemble r out w).2 !! l = Some v) ∧
  columns (assembled d) = keep ∧
  (∀ c, c ∈ keep -> c ≠ "subject" -> c ≠ "content" ->
        getitem c (assembled d) = getitem c d) ∧
  ∃ xs ys, getitem "subject" (assembled d) = Some (TextCol (Some <$> xs)) ∧
           getitem "content" (assembled d) = Some (TextCol (Some <$> ys)).
Proof.
  intros Hr Hcols. rewrite (run_assemble w r d out Hr Hcols). cbn [fst snd heap dirs files].
  split; [done|]. split; [done|]. split; [done|]. split.
  { intros l v Hl. rewrite lookup_insert_ne; [done|].
    intros <-. pose proof (is_fresh (dom (heap w))) as Hf.
    apply not_elem_of_dom in Hf. congruence. }
  destruct (assembled_explicit d Hcols)
    as (v1 & v2 & v3 & v4 & v5 & v6 & v7 & v8 & v9 & v10 & Hg & ->).
  destruct Hg as (H1 & H2 & H3 & H4 & H5 & H6 & H7 & H8 & H9 & H10).
  split; [done|]. split; [|by eexists _, _].
  intros c Hc Hs Hcn. unfold keep in Hc.
  repeat (apply elem_of_cons in Hc as [->|Hc]); try done;
    try (by apply elem_of_nil in Hc); simpl; congruence.
Qed.

End AssemblerTable.

Lemma assemble_writes_witness :
  let d := Tables.no_hops ++ [("num_cc", NumCol [0%Z]); ("subject_len", NumCol [2%Z]);
                              ("content_len", NumCol [14%Z]); ("has_link", NumCol [0%Z]);
                              ("num_hops", NumCol [0%Z])] in
  let w := Tables.one_table d in
  let run := BuildProcessed.assemble 1%positive Tables.out_path w in
  run.1 = inr () ∧
  files run.2 = <[Tables.out_path := Pipeline.assembled d]> (files w) ∧
  dirs run.2 = dirs w ∪ Pipeline.made_dirs Tables.out_path ∧
  (∀ l v, heap w !! l = Some v -> heap run.2 !! l = Some v) ∧
  columns (Pipeline.assembled d) = BuildProcessed.keep ∧
  (∀ c, c ∈ BuildProcessed.keep -> c ≠ "subject" -> c ≠ "content" ->
        getitem c (Pipeline.assembled d) = getitem c d) ∧
  ∃ xs ys, getitem "subject" (Pipeline.assembled d) = Some (TextCol (Some <$> xs)) ∧
           getitem "content" (Pipeline.assembled d) = Some (TextCol (Some <$> ys)).
Proof.
  apply assemble_writes.
  - reflexivity.
  - intros c Hc. unfold BuildProcessed.keep in Hc.
    repeat (apply elem_of_cons in Hc as [->|Hc]); try by_decide.
    by apply elem_of_nil in Hc.
Defined.

(** ** The engine and the whole run on the rows of the loader *)

Section RunOnRows.
Import EmailFeatureClass Features BuildProcessed Pipeline Closed.
Context {re : Regex}.

Lemma zip_with_fmap_same {A B C D} (f : B -> C -> D) (g : A -> B) (h : A -> C) (l : list A) :
  zip_with f (g <$> l) (h <$> l) = (fun x => f (g x) (h x)) <$> l.
Proof.
  induction l as [|a l IH]; [done|]. rewrite !fmap_cons. cbn [zip_with]. by rewrite IH.
Qed.

Lemma filled_text (f : EmailDataset.EmailRecord -> str) rows :
  fillna_empty (text_of f rows) = StrSeries (f <$> rows).
Proof. unfold text_of. simpl. by rewrite <-list_fmap_compose. Qed.

Lemma str_len_text (f : EmailDataset.EmailRecord -> str) rows :
  str_len (fillna_empty (text_of f rows)) = inr (count_of (fun r => length (f r)) rows).
Proof. rewrite filled_text. unfold count_of. simpl. by rewrite <-list_fmap_compose. Qed.

Lemma has_link_text rows :
  has_link_col (astype_str (fillna_empty (text_of EmailDataset.subject rows)))
    (astype_str (fillna_empty (text_of EmailDataset.content rows)))
  = NumCol (link_flag <$> rows).
Proof.
  rewrite !filled_text. unfold has_link_col. cbn [astype_str].
  by rewrite zip_with_fmap_same.
Qed.

Lemma clean_text_col (f : EmailDataset.EmailRecord -> str) rows :
  TextCol (Some <$> astype_str (fillna_empty (text_of f rows))) = text_of f rows.
Proof. rewrite filled_text. unfold text_of. simpl. by rewrite <-list_fmap_compose. Qed.

Lemma add_from_new f dst src d s v :
  dst ∉ columns d -> getitem src d = Some s -> f (fillna_empty s) = inr v ->
  add_from f dst src d = inr (d ++ [(dst, v)]).
Proof.
  intros Hdst Hsrc Hf. unfold add_from.
  assert (src ∈ columns d) as Hin by (apply getitem_is_Some; by exists s).
  rewrite (proj2 (not_in_true _ _) Hdst), bool_decide_eq_true_2 by done.
  cbn [andb]. rewrite Hsrc, Hf. cbn [bind]. by rewrite setitem_fresh.
Qed.

Lemma add_has_link_new d s c :
  "has_link" ∉ columns d -> getitem "subject" d = Some s -> getitem "content" d = Some c ->
  add_has_link default d
  = inr (d ++ [("has_link",
                has_link_col (astype_str (fillna_empty s)) (astype_str (fillna_empty c)))]).
Proof.
  intros Hdst Hs Hc. unfold add_has_link.
  rewrite (proj2 (not_in_true _ _) Hdst). cbn [subject_col content_col default].
  rewrite Hs, Hc. by rewrite setitem_fresh.
Qed.

Lemma features_frame rows :
  rows ≠ [] -> features default (frame_of_rows rows) = inr (frame_of_rows rows ++ added rows).
Proof.
  destruct rows as [|r0 rs]; [done|]. intros _. set (rows := r0 :: rs).
  unfold frame_of_rows. fold rows.
  fold (text_of EmailDataset.sender rows) (text_of EmailDataset.recipient rows)
       (text_of EmailDataset.cc rows) (text_of EmailDataset.subject rows)
       (text_of EmailDataset.content rows).
  unfold features. cbn [subject_col content_col default].
  destruct (existsb _ rows).
  all: erewrite add_from_new;
    [|by_decide|reflexivity|apply str_len_text]; cbn [bind].
  all: erewrite add_from_new;
    [|by_decide|reflexivity|apply str_len_text]; cbn [bind].
  all: erewrite add_has_link_new; [|by_decide|reflexivity|reflexivity]; cbn [bind].
  all: rewrite has_link_text.
  all: rewrite add_from_present by by_decide; cbn [bind].
  all: reflexivity.
Qed.

Lemma labelled_rows (rows : list EmailDataset.EmailRecord) :
  rows ≠ [] -> Forall (fun r => is_Some (EmailDataset.label r)) rows ->
  existsb (fun r => bool_decide (is_Some (EmailDataset.label r))) rows = true.
Proof.
  destruct rows as [|r0 rs]; [done|]. intros _ Hall. apply Forall_cons_1 in Hall as [H0 _].
  simpl. by rewrite bool_decide_eq_true_2.
Qed.

Lemma frame_keep rows c :
  rows ≠ [] -> Forall (fun r => is_Some (EmailDataset.label r)) rows ->
  c ∈ keep -> c ∈ columns (frame_of_rows rows ++ added rows).
Proof.
  intros Hne Hall Hc. pose proof (labelled_rows rows Hne Hall) as Hex.
  destruct rows as [|r0 rs]; [done|]. unfold frame_of_rows. rewrite Hex.
  unfold keep in Hc.
  repeat (apply elem_of_cons in Hc as [->|Hc]); try by_decide.
  by apply elem_of_nil in Hc.
Qed.

Lemma assembled_frame rows :
  rows ≠ [] -> Forall (fun r => is_Some (EmailDataset.label r)) rows ->
  assembled (frame_of_rows rows ++ added rows) = written rows.
Proof.
  intros Hne Hall. pose proof (labelled_rows rows Hne Hall) as Hex.
  destruct rows as [|r0 rs]; [done|]. set (rows := r0 :: rs) in *.
  unfold frame_of_rows. fold rows. rewrite Hex. unfold assembled.
  match goal with |- context [project_cols keep ?d] =>
    assert (project_cols keep d
          = [("sender", text_of EmailDataset.sender rows);
             ("recipient", text_of EmailDataset.recipient rows);
             ("num_cc", count_of EmailDataset.num_cc rows);
             ("subject", text_of EmailDataset.subject rows);
             ("content", text_of EmailDataset.content rows);
             ("subject_len", count_of (fun r => length (EmailDataset.subject r)) rows);
             ("content_len", count_of (fun r => length (EmailDataset.content r)) rows);
             ("has_link", NumCol (link_flag <$> rows));
             ("num_hops", count_of EmailDataset.num_hops rows);
             ("label", TextCol ((fun r => lit <$> EmailDataset.label r) <$> rows))]) as ->
      by reflexivity
  end.
  unfold clean_col at 2.
  change (getitem "subject" _) with (Some (text_of EmailDataset.subject rows)).
  cbv beta iota. rewrite clean_text_col.
  unfold clean_col.
  change (getitem "content" _) with (Some (text_of EmailDataset.content rows)).
  cbv beta iota. rewrite clean_text_col. reflexivity.
Qed.

(** The engine followed by the assembler, on a live table. *)
Lemma run_main_from (w : world) (df : loc) (d0 : DataFrame) (out : path) :
  heap w !! df = Some d0 ->
  match features default d0 with
  | inl e =>
      (main_from df out w).1 = inl e ∧
      files (main_from df out w).2 = files w ∧ dirs (main_from df out w).2 = dirs w
  | inr d =>
      (∀ c, c ∈ keep -> c ∈ columns d) ->
      (main_from df out w).1 = inr () ∧
      files (main_from df out w).2 = <[out := assembled d]> (files w) ∧
      dirs (main_from df out w).2 = dirs w ∪ made_dirs out
  end.
Proof.
  intros Hdf. pose proof (call_runs_features default w df d0 Hdf) as Hrun.
  pose proof (call_hoare default w df d0 Hdf) as (d' & (_ & _ & Hdirs & Hfiles) & _).
  unfold main_from, mbind, M_bind.
  destruct (call default df w) as [[e|r'] w2]; cbn [fst snd] in *.
  - destruct (features default d0) as [e0|d]; [|by destruct Hrun as (? & ? & _)].
    by injection Hrun as ->.
  - destruct (features default d0) as [e0|d]; [done|].
    destruct Hrun as (r2 & [= <-] & Hd). intros Hcols.
    rewrite (run_assemble w2 r' d out Hd Hcols). cbn [fst snd files dirs].
    by rewrite Hdirs, Hfiles.
Qed.

End RunOnRows.

(** X20. On the table of rows of the loader, if there is at least one row,
    [__call__] returns that table followed by three new columns:
    [subject_len] and [content_len] with the number of characters of the
    subject and of the content of every row, and [has_link] with 1 where the
    subject, a space and the content hold a match of the URL pattern and 0
    elsewhere.  The [num_cc] of the loader is kept, not derived again. *)
Theorem call_on_loaded_rows {re : Regex} (w : world) (r : loc)
    (rows : list EmailDataset.EmailRecord) :
  rows ≠ [] -> heap w !! r = Some (Pipeline.frame_of_rows rows) ->
  ∃ r', (EmailFeatureClass.call EmailFeatureClass.default r w).1 = inr r' ∧
        heap (EmailFeatureClass.call EmailFeatureClass.default r w).2 !! r'
        = Some (Pipeline.frame_of_rows rows ++ Closed.added rows).
Proof.
  intros Hne Hr.
  pose proof (call_runs_features EmailFeatureClass.default w r _ Hr) as Hrun.
  by rewrite (features_frame rows Hne) in Hrun.
Qed.

Lemma call_on_loaded_rows_witness :
  ∃ r', (EmailFeatureClass.call (re := Sample.regex) EmailFeatureClass.default 1%positive
           Runs.world_of_loaded).1 = inr r' ∧
        heap (EmailFeatureClass.call (re := Sample.regex) EmailFeatureClass.default 1%positive
                Runs.world_of_loaded).2 !! r'
        = Some (Runs.loaded ++
                [("subject_len", NumCol [7%Z; 2%Z]); ("content_len", NumCol [16%Z; 14%Z]);
                 ("has_link", NumCol [0%Z; 0%Z])]).
Proof.
  apply (call_on_loaded_rows (re := Sample.regex) Runs.world_of_loaded 1%positive Runs.records).
  - discriminate.
  - reflexivity.
Defined.

(** ** The whole run *)

Section WholeRun.
Import EmailDataset Pipeline.
Context {re : Regex} {uni : Unicode} {cod : Codec} {pkg : EmailPkg}.

Lemma load_data_labelled (spam_dir ham_dir : list DirEntry) rows :
  load_data spam_dir ham_dir = Some rows -> Forall (fun r => is_Some (label r)) rows.
Proof.
  unfold load_data.
  destruct (load spam_dir (Some "spam")) as [[spam s1]|] eqn:Hs; cbn [mbind option_bind];
    [|done].
  destruct (load ham_dir (Some "ham")) as [[ham s2]|] eqn:Hh; cbn [mbind option_bind];
    [|done].
  intros [= <-]. cbn [fst]. apply Forall_app. split.
  - eapply Forall_impl; [by eapply load_rows_label|]. intros r ->. by eexists.
  - eapply Forall_impl; [by eapply load_rows_label|]. intros r ->. by eexists.
Qed.

(** X21. The run of build_processed.py on two directories that exist.  When
    an exception leaves [load_data] (reading a header of some file raised),
    it leaves [main], and no directory is made and no file written.  When
    the loader gives no row, [main] raises KeyError for [subject], again
    without making a directory or writing a file.  When the loader gives at
    least one row, [main] returns without error, makes the directories above
    the output path and writes there the table of the ten kept columns, one
    line per row in the order of [load_data], with the lengths and the link
    flag computed from the subject and content of the row. *)
Theorem main_on_result (w : world) (spam_dir ham_dir : list DirEntry) (out : path) :
  match load_data spam_dir ham_dir with
  | None =>
      (main_on spam_dir ham_dir out w).1 = inl HeaderError ∧
      files (main_on spam_dir ham_dir out w).2 = files w ∧
      dirs (main_on spam_dir ham_dir out w).2 = dirs w
  | Some [] =>
      (main_on spam_dir ham_dir out w).1 = inl (KeyError "subject") ∧
      files (main_on spam_dir ham_dir out w).2 = files w ∧
      dirs (main_on spam_dir ham_dir out w).2 = dirs w
  | Some (r :: rs) =>
      (main_on spam_dir ham_dir out w).1 = inr () ∧
      files (main_on spam_dir ham_dir out w).2
      = <[out := Closed.written (r :: rs)]> (files w) ∧
      dirs (main_on spam_dir ham_dir out w).2 = dirs w ∪ made_dirs out
  end.
Proof.
  unfold main_on.
  destruct (load_data spam_dir ham_dir) as [rows|] eqn:Hload; [|done].
  pose proof (load_data_labelled spam_dir ham_dir rows Hload) as Hall.
  set (w1 := set_heap (insert (fresh (dom (heap w))) (frame_of_rows rows)) w).
  change ((alloc (frame_of_rows rows) ≫= fun df => BuildProcessed.main_from df out) w)
    with (BuildProcessed.main_from (fresh (dom (heap w))) out w1).
  pose proof (run_main_from w1 (fresh (dom (heap w))) (frame_of_rows rows) out
                (heap_set_heap _ _ _)) as Hrun.
  destruct rows as [|r0 rs] eqn:Hrows.
  - exact Hrun.
  - rewrite <-Hrows in *. assert (rows ≠ []) as Hne by (by rewrite Hrows).
    rewrite (features_frame rows Hne) in Hrun.
    rewrite (assembled_frame rows Hne Hall) in Hrun.
    apply Hrun. intros c Hc. by apply frame_keep.
Qed.

End WholeRun.

